(** * flag.ts: typed command-line flags

    A shallow embedding of [src/flag.ts]: the four typed values, the [Flag]
    wrapper, the [FlagSet] registry and its token parser, followed by the
    properties of the specification that were checked against them.

    Conventions of the embedding.
    - A JavaScript string is a [string] of the Standard Library; a character
      is one code unit below 256.
    - A JavaScript [number] is a binary64 value; a finite one is written by
      its exact decimal expansion ([number] below), and the value of a
      numeric literal is rounded to the nearest binary64 value, ties to even
      ([JsNumber.roundToBinary64]).
    - A method that mutates [this] takes the receiver and returns the new
      receiver; a method that can throw returns a [completion].  Every
      [throw] of the source happens before the first assignment of its
      method, so a thrown completion leaves the receiver as it was.
    - A [Map] is an association list in insertion order (the order of
      [Map.prototype.forEach]). *)

From Stdlib Require Import String Ascii List Bool Arith ZArith NArith Lia.
From Stdlib Require Import DecimalString.
From Equations Require Import Equations.
Import ListNotations.
Open Scope list_scope.
Open Scope string_scope.

(** ** String primitives of the host language *)

Module JsString.

(** [s.startsWith(p)] *)
Fixpoint startsWith (s p : string) {struct p} : bool :=
  match p, s with
  | EmptyString, _ => true
  | String _ _, EmptyString => false
  | String a p', String b s' => Ascii.eqb a b && startsWith s' p'
  end.

(** [s.substring(n)]: the characters from index [n] on. *)
Fixpoint substringFrom (n : nat) (s : string) : string :=
  match n, s with
  | O, _ => s
  | S _, EmptyString => EmptyString
  | S n', String _ s' => substringFrom n' s'
  end.

(** [s.substring(0, n)]: the first [n] characters. *)
Fixpoint substringTo (n : nat) (s : string) : string :=
  match n, s with
  | O, _ => EmptyString
  | S _, EmptyString => EmptyString
  | S n', String c s' => String c (substringTo n' s')
  end.

(** [s.indexOf(c)] for a one-character needle; [None] stands for [-1]. *)
Fixpoint indexOf (s : string) (c : ascii) : option nat :=
  match s with
  | EmptyString => None
  | String b s' =>
      if Ascii.eqb b c then Some O
      else match indexOf s' c with
           | Some i => Some (S i)
           | None => None
           end
  end.

(** [c.toLowerCase()] on the code units below 256: the ASCII capitals and
    the Latin-1 capitals U+00C0..U+00DE, the multiplication sign U+00D7
    apart. *)
Definition lowerChar (c : ascii) : ascii :=
  let n := nat_of_ascii c in
  if (((65 <=? n) && (n <=? 90))
      || ((192 <=? n) && (n <=? 222) && negb (n =? 215)))%nat
  then ascii_of_nat (n + 32)
  else c.

Fixpoint toLowerCase (s : string) : string :=
  match s with
  | EmptyString => EmptyString
  | String c s' => String (lowerChar c) (toLowerCase s')
  end.

(** WhiteSpace and LineTerminator code units below 256: TAB, LF, VT, FF, CR,
    SP and NBSP. *)
Definition isWhiteSpace (c : ascii) : bool :=
  let n := nat_of_ascii c in
  (((9 <=? n) && (n <=? 13)) || (n =? 32) || (n =? 160))%nat.

(** [TrimString(s, start)] *)
Fixpoint trimStart (s : string) : string :=
  match s with
  | EmptyString => EmptyString
  | String c s' => if isWhiteSpace c then trimStart s' else s
  end.

(** Truthiness of a string: the empty string is the only falsy one. *)
Definition truthy (s : string) : bool :=
  match s with
  | EmptyString => false
  | String _ _ => true
  end.

(** [l.join(sep)] *)
Definition join (sep : string) (l : list string) : string := String.concat sep l.

End JsString.

(** ** Numbers and [parseFloat] *)

(** A binary64 value.  The value of a [Decimal] is
    [(-1)^negative * digits * 10^exponent]; a finite binary64 value
    [m * 2^e] with [e < 0] is the decimal [m * 5^(-e) * 10^e], so every
    finite value has such an expansion, and [Decimal true 0 0] is [-0].
    [JsNumber.isBinary64] tells the decimals that are binary64 values. *)
Inductive number : Type :=
| NaN
| Infinity (negative : bool)
| Decimal (negative : bool) (digits : N) (exponent : Z).

Definition isNaN (x : number) : bool :=
  match x with
  | NaN => true
  | _ => false
  end.

Module JsNumber.
Import JsString.

Definition isDigit (c : ascii) : bool :=
  let n := nat_of_ascii c in ((48 <=? n) && (n <=? 57))%nat.

(** The longest run of decimal digits at the front of [s], and what follows. *)
Fixpoint spanDigits (s : string) : string * string :=
  match s with
  | EmptyString => (EmptyString, EmptyString)
  | String c s' =>
      if isDigit c
      then let (ds, rest) := spanDigits s' in (String c ds, rest)
      else (EmptyString, s)
  end.

(** The mathematical value of a run of decimal digits. *)
Fixpoint digitsValue (acc : N) (s : string) : N :=
  match s with
  | EmptyString => acc
  | String c s' => digitsValue (10 * acc + N.of_nat (nat_of_ascii c - 48)) s'
  end.

(** Drops at most [fuel] trailing zeros of [d], raising the exponent. *)
Fixpoint stripZeros (fuel : nat) (d : N) (e : Z) : N * Z :=
  match fuel with
  | O => (d, e)
  | S fuel' =>
      if N.eqb (d mod 10) 0 then stripZeros fuel' (d / 10)%N (e + 1)%Z
      else (d, e)
  end.

(** One representation per value: zero is [(0, 0)], an integer has
    exponent [0], and a fraction has a negative exponent and a last digit
    that is not [0]. *)
Definition normalize (d : N) (e : Z) : N * Z :=
  if N.eqb d 0 then (0%N, 0%Z)
  else if (0 <=? e)%Z then ((d * 10 ^ Z.to_N e)%N, 0%Z)
  else stripZeros (Z.to_nat (- e)) d e.

(** [num / den] rounded to the nearest integer, a tie to the even one. *)
Definition roundHalfEven (num den : N) : N :=
  let q := (num / den)%N in
  match (2 * (num mod den) ?= den)%N with
  | Lt => q
  | Eq => if N.even q then q else (q + 1)%N
  | Gt => (q + 1)%N
  end.

(** The integer part of the binary logarithm of [p / q], for positive [p]
    and [q]. *)
Definition floorLog2 (p q : N) : Z :=
  let l := (Z.of_N (N.log2 p) - Z.of_N (N.log2 q))%Z in
  let reached :=
    if (0 <=? l)%Z then (q * 2 ^ Z.to_N l <=? p)%N
    else (q <=? p * 2 ^ Z.to_N (- l))%N in
  if reached then l else (l - 1)%Z.

(** The binary exponent of the binary64 value for [p / q]: the significand
    has 53 bits, and the exponent does not go below that of the subnormal
    values. *)
Definition binaryExponent (p q : N) : Z :=
  Z.max (floorLog2 p q - 52) (-1074).

(** The significand over [2^b]: [(p / q) / 2^b], rounded. *)
Definition significand (p q : N) (b : Z) : N :=
  if (0 <=? b)%Z then roundHalfEven p (q * 2 ^ Z.to_N b)
  else roundHalfEven (p * 2 ^ Z.to_N (- b)) q.

(** The binary64 value nearest to [d * 10^e], ties to even; a magnitude of
    [2^1024] or more is infinite, and the result is written as a decimal,
    [m * 2^b] with [b < 0] being [m * 5^(-b) * 10^b]. *)
Definition roundToBinary64 (negative : bool) (d : N) (e : Z) : number :=
  if N.eqb d 0 then Decimal negative 0 0
  else
    let p := if (0 <=? e)%Z then (d * 10 ^ Z.to_N e)%N else d in
    let q := if (0 <=? e)%Z then 1%N else (10 ^ Z.to_N (- e))%N in
    let b := binaryExponent p q in
    let m := significand p q b in
    if (0 <=? b)%Z
    then
      if (2 ^ 1024 <=? m * 2 ^ Z.to_N b)%N then Infinity negative
      else Decimal negative (m * 2 ^ Z.to_N b) 0
    else
      let (d', e') := normalize (m * 5 ^ Z.to_N (- b)) b in
      Decimal negative d' e'.

Definition sameNumber (x y : number) : bool :=
  match x, y with
  | NaN, NaN => true
  | Infinity a, Infinity b => Bool.eqb a b
  | Decimal a d e, Decimal b d' e' => Bool.eqb a b && N.eqb d d' && Z.eqb e e'
  | _, _ => false
  end.

(** [x] is a binary64 value: not a finite number, or [m * 2^b] with a
    significand [m] below [2^53] and [-1074 <= b <= 971]. *)
Definition isBinary64 (x : number) : Prop :=
  match x with
  | Decimal _ d e =>
      exists (m : N) (b : Z),
        (m < 2 ^ 53)%N /\ (-1074 <= b <= 971)%Z
        /\ (d * 10 ^ Z.to_N e * 2 ^ Z.to_N (- b)
            = m * 2 ^ Z.to_N b * 10 ^ Z.to_N (- e))%N
  | _ => True
  end.

(** The distance of two natural numbers. *)
Definition distance (a b : N) : N := ((a - b) + (b - a))%N.

(** [below p q k]: the quotient [p / q] lies under [2^k]. *)
Definition below (p q : N) (k : Z) : Prop :=
  (p * 2 ^ Z.to_N (- k) < q * 2 ^ Z.to_N k)%N.

(** The numeric value of a decimal literal with integer part [intPart],
    fraction [fracPart] and exponent [e], as a binary64 value. *)
Definition mkDecimal (negative : bool) (intPart fracPart : string) (e : Z) : number :=
  roundToBinary64 negative (digitsValue 0 (intPart ++ fracPart))
                  (e - Z.of_nat (String.length fracPart)).

(** SignedInteger: [DecimalDigits], [+ DecimalDigits] or [- DecimalDigits],
    up to the end of the string. *)
Definition signedInteger (s : string) : option Z :=
  let body (t : string) : option Z :=
    match spanDigits t with
    | (String c ds, EmptyString) => Some (Z.of_N (digitsValue 0 (String c ds)))
    | _ => None
    end in
  match s with
  | String "+" t => body t
  | String "-" t => option_map Z.opp (body t)
  | _ => body s
  end.

(** ExponentPart: [e] or [E], then a SignedInteger. *)
Definition exponentPart (s : string) : option Z :=
  match s with
  | String "e" t | String "E" t => signedInteger t
  | _ => None
  end.

(** An optional ExponentPart that ends the literal. *)
Definition optExponentPart (s : string) : option Z :=
  match s with
  | EmptyString => Some 0%Z
  | _ => exponentPart s
  end.

(** StrUnsignedDecimalLiteral, with its numeric value:
    [Infinity], [DecimalDigits . DecimalDigits? ExponentPart?],
    [. DecimalDigits ExponentPart?] or [DecimalDigits ExponentPart?]. *)
Definition strUnsignedDecimalLiteral (negative : bool) (s : string) : option number :=
  if String.eqb s "Infinity" then Some (Infinity negative)
  else
    let (ip, r) := spanDigits s in
    match r with
    | String "." r' =>
        let (fp, r'') := spanDigits r' in
        if negb (truthy ip) && negb (truthy fp) then None
        else option_map (mkDecimal negative ip fp) (optExponentPart r'')
    | _ =>
        if truthy ip
        then option_map (mkDecimal negative ip EmptyString) (optExponentPart r)
        else None
    end.

(** StrDecimalLiteral: an optional sign, then a StrUnsignedDecimalLiteral.
    [None] when the whole of [s] is not such a literal. *)
Definition strDecimalLiteral (s : string) : option number :=
  match s with
  | String "+" t => strUnsignedDecimalLiteral false t
  | String "-" t => strUnsignedDecimalLiteral true t
  | _ => strUnsignedDecimalLiteral false s
  end.

Definition isStrDecimalLiteral (s : string) : bool :=
  match strDecimalLiteral s with
  | Some _ => true
  | None => false
  end.

(** The longest prefix of [s] that satisfies [P]. *)
Fixpoint longestPrefix (P : string -> bool) (s : string) : option string :=
  let shortest := if P EmptyString then Some EmptyString else None in
  match s with
  | EmptyString => shortest
  | String c s' =>
      match longestPrefix (fun p => P (String c p)) s' with
      | Some p => Some (String c p)
      | None => shortest
      end
  end.

(** [parseFloat(s)]: trim the leading white space, take the longest prefix
    that is a StrDecimalLiteral and return its value; [NaN] when no prefix
    is one. *)
Definition parseFloat (s : string) : number :=
  match longestPrefix isStrDecimalLiteral (trimStart s) with
  | Some p =>
      match strDecimalLiteral p with
      | Some x => x
      | None => NaN
      end
  | None => NaN
  end.

Definition natToString (n : nat) : string :=
  NilZero.string_of_uint (Nat.to_uint n).

Fixpoint zeros (n : nat) : string :=
  match n with
  | O => EmptyString
  | S n' => String "0" (zeros n')
  end.

Definition digitsOf (d : N) : string := NilZero.string_of_uint (N.to_uint d).

(** The digits and the exponent of [Number::toString] for the positive
    value [d * 10^e], where [d] has [len] digits: the least number [k] of
    digits such that some [s * 10^(n-k)] with [10^(k-1) <= s < 10^k] is the
    number, and among those the [s] that is nearest to it, the even one of
    two.  Only the two [k]-digit decimals around the value can be nearest;
    the upper one may be [10^k], which is [10^(k-1)] one decade higher. *)
Fixpoint shortestDigits (fuel : nat) (k : Z) (d : N) (len e : Z) : N * Z :=
  let n := (len + e)%Z in
  match fuel with
  | O => (d, n)
  | S fuel' =>
      if (len <=? k)%Z then (d, n)
      else
        let cut := (10 ^ Z.to_N (len - k))%N in
        let lo := (d / cut)%N in
        let hi := (lo + 1)%N in
        let rounds (s : N) :=
          sameNumber (roundToBinary64 false s (n - k)) (Decimal false d e) in
        let below := (lo, n) in
        let above :=
          if N.eqb hi (10 ^ Z.to_N k) then ((10 ^ Z.to_N (k - 1))%N, (n + 1)%Z)
          else (hi, n) in
        match rounds lo, rounds hi with
        | true, true =>
            match (2 * (d mod cut) ?= cut)%N with
            | Lt => below
            | Eq => if N.even lo then below else above
            | Gt => above
            end
        | true, false => below
        | false, true => above
        | false, false => shortestDigits fuel' (k + 1)%Z d len e
        end
  end.

(** [Number::toString(x)] in radix 10. *)
Definition toString (x : number) : string :=
  match x with
  | NaN => "NaN"
  | Infinity false => "Infinity"
  | Infinity true => "-Infinity"
  | Decimal negative d e =>
      let (d', e') := normalize d e in
      if N.eqb d' 0 then "0"
      else
        let len := String.length (digitsOf d') in
        let (digits, n) := shortestDigits len 1 d' (Z.of_nat len) e' in
        let s := digitsOf digits in
        let k := Z.of_nat (String.length s) in
        let body :=
          if ((k <=? n) && (n <=? 21))%Z then s ++ zeros (Z.to_nat (n - k))
          else if ((0 <? n) && (n <=? 21))%Z
          then substringTo (Z.to_nat n) s ++ "." ++ substringFrom (Z.to_nat n) s
          else if ((-6 <? n) && (n <=? 0))%Z
          then "0." ++ zeros (Z.to_nat (- n)) ++ s
          else
            let mantissa :=
              if (k =? 1)%Z then s
              else substringTo 1 s ++ "." ++ substringFrom 1 s in
            mantissa ++ "e" ++ (if (n - 1 <? 0)%Z then "-" else "+")
                     ++ natToString (Z.abs_nat (n - 1)) in
        (if negative then "-" else "") ++ body
  end.

End JsNumber.

(** ** Errors *)

Definition dquote : string := String (ascii_of_nat 34) EmptyString.

(** [FlagParseError]: the message as its constructor builds it, the flag
    name and the offending value ([None] is [undefined]). *)
Record FlagParseError : Type := mkFlagParseError {
  message : string;
  flagName : option string;
  offendingValue : option string
}.

(** [new FlagParseError(message, flagName, offendingValue)] *)
Definition new_FlagParseError (msg : string) (name value : option string)
  : FlagParseError :=
  let baseMessage :=
    match name with
    | Some n => if JsString.truthy n then "Flag '" ++ n ++ "': " ++ msg else msg
    | None => msg
    end in
  let fullMessage :=
    match value with
    | Some v => baseMessage ++ " (value: " ++ dquote ++ v ++ dquote ++ ")"
    | None => baseMessage
    end in
  mkFlagParseError fullMessage name value.

(** What the source throws. [TypeError] is the host's own error for a
    method call on [undefined]. *)
Inductive exn : Type :=
| FlagDefinitionError (msg : string)
| ParseError (e : FlagParseError)
| HelpRequestError
| TypeError (msg : string).

Definition exnMessage (e : exn) : string :=
  match e with
  | FlagDefinitionError msg => msg
  | ParseError e => message e
  | HelpRequestError => "Help requested by user"
  | TypeError msg => msg
  end.

Inductive completion (A : Type) : Type :=
| Normal (a : A)
| Throw (e : exn).
Arguments Normal {A} a.
Arguments Throw {A} e.

(** ** Typed values: the four implementations of [IFlag] *)

Inductive IFlag : Type :=
| BooleanValue (currentValue : bool)
| StringValue (currentValue : string)
| NumberValue (currentValue : number)
| StringListValue (currentValue : list string) (initialDefault : list string).

(** What [get()] returns. *)
Inductive value : Type :=
| VBoolean (b : bool)
| VString (s : string)
| VNumber (x : number)
| VStringList (l : list string).

(** [new StringListValue(defaultValue)] *)
Definition new_StringListValue (defaultValue : list string) : IFlag :=
  StringListValue defaultValue defaultValue.

Module Value.

Definition set (v : IFlag) (stringValue : string) : completion IFlag :=
  match v with
  | BooleanValue _ =>
      let lower := JsString.toLowerCase stringValue in
      if String.eqb lower "true" || String.eqb lower "1"
      then Normal (BooleanValue true)
      else if String.eqb lower "false" || String.eqb lower "0"
      then Normal (BooleanValue false)
      else Throw (ParseError
                    (new_FlagParseError "invalid boolean value" None (Some stringValue)))
  | StringValue _ => Normal (StringValue stringValue)
  | NumberValue _ =>
      let num := JsNumber.parseFloat stringValue in
      if isNaN num
      then Throw (ParseError
                    (new_FlagParseError "invalid number" None (Some stringValue)))
      else Normal (NumberValue num)
  | StringListValue cur init => Normal (StringListValue (cur ++ [stringValue])%list init)
  end.

Definition get (v : IFlag) : value :=
  match v with
  | BooleanValue b => VBoolean b
  | StringValue s => VString s
  | NumberValue x => VNumber x
  | StringListValue cur _ => VStringList cur
  end.

Definition asString (v : IFlag) : string :=
  match v with
  | BooleanValue b => if b then "true" else "false"
  | StringValue s => s
  | NumberValue x => JsNumber.toString x
  | StringListValue cur init =>
      match cur, init with
      | [], [] => ""
      | _, _ => JsString.join ", " cur
      end
  end.

Definition typeName (v : IFlag) : string :=
  match v with
  | BooleanValue _ => "boolean"
  | StringValue _ => "string"
  | NumberValue _ => "number"
  | StringListValue _ _ => "string[]"
  end.

Definition expectsExplicitValue (v : IFlag) : bool :=
  match v with
  | BooleanValue _ => false
  | _ => true
  end.

(** [_clearAndReset(value)]: [(value && this.set(value))] for the three
    scalar values, a fresh copy of [initialDefault] for the list. *)
Definition _clearAndReset (v : IFlag) (stringValue : string) : completion IFlag :=
  match v with
  | StringListValue _ init => Normal (StringListValue init init)
  | _ => if JsString.truthy stringValue then set v stringValue else Normal v
  end.

End Value.

(** ** Flag *)

Record Flag : Type := mkFlag {
  name : string;
  description : string;
  alias : option string;
  valueHolder : IFlag;
  initialDefaultValueString : string;
  _isSet : bool
}.

Definition withValue (f : Flag) (v : IFlag) (isSet : bool) : Flag :=
  mkFlag (name f) (description f) (alias f) v (initialDefaultValueString f) isSet.

(** [new Flag({name, description, alias, valueHolder})] *)
Definition new_Flag (name description : string) (alias : option string)
           (valueHolder : IFlag) : completion Flag :=
  let build (a : option string) :=
    Normal (mkFlag name description a valueHolder (Value.asString valueHolder) false) in
  match alias with
  | Some a =>
      if JsString.truthy a then
        if negb (String.length a =? 1)%nat || String.eqb a "-" || String.eqb a "="
        then Throw (FlagDefinitionError
                      ("Alias for flag " ++ dquote ++ name ++ dquote
                       ++ " must be a single character and not '-' or '=', got "
                       ++ dquote ++ a ++ dquote ++ "."))
        else build (Some a)
      else build None
  | None => build None
  end.

Module FlagOps.

Definition _setValueFromString (f : Flag) (stringValue : string) : completion Flag :=
  match Value.set (valueHolder f) stringValue with
  | Normal v => Normal (withValue f v true)
  | Throw e => Throw e
  end.

Definition _setImplicitly (f : Flag) : completion Flag :=
  if String.eqb (Value.typeName (valueHolder f)) "boolean" then
    match Value.set (valueHolder f) "true" with
    | Normal v => Normal (withValue f v true)
    | Throw e => Throw e
    end
  else Throw (ParseError
                (new_FlagParseError "cannot be set implicitly without a value"
                                    (Some (name f)) None)).

Definition _resetToDefault (f : Flag) : completion Flag :=
  match Value._clearAndReset (valueHolder f) (initialDefaultValueString f) with
  | Normal v => Normal (withValue f v false)
  | Throw e => Throw e
  end.

Definition value (f : Flag) : value := Value.get (valueHolder f).
Definition isSet (f : Flag) : bool := _isSet f.
Definition defaultValueAsString (f : Flag) : string := initialDefaultValueString f.
Definition typeName (f : Flag) : string := Value.typeName (valueHolder f).
Definition expectsExplicitValue (f : Flag) : bool :=
  Value.expectsExplicitValue (valueHolder f).

End FlagOps.

(** ** Flag registry *)

(** [Map<string, V>]: entries in insertion order, one per key. *)
Module JsMap.
Section WithValues.
Context {V : Type}.

Fixpoint get (m : list (string * V)) (k : string) : option V :=
  match m with
  | [] => None
  | (k', v) :: m' => if String.eqb k' k then Some v else get m' k
  end.

Definition has (m : list (string * V)) (k : string) : bool :=
  match get m k with
  | Some _ => true
  | None => false
  end.

(** [m.set(k, v)]: replaces the entry of [k] where it stands, or adds a
    last entry. *)
Fixpoint set (m : list (string * V)) (k : string) (v : V) : list (string * V) :=
  match m with
  | [] => [(k, v)]
  | (k', v') :: m' =>
      if String.eqb k' k then (k, v) :: m' else (k', v') :: set m' k v
  end.

Definition values (m : list (string * V)) : list V := map snd m.
End WithValues.
End JsMap.

Inductive _ParseOneOutcome : Type :=
| FLAG_CONSUMED_AND_PROCESSED
| TERMINATOR_CONSUMED
| NOT_A_FLAG_ENCOUNTERED.

(** [argProvider] is the token list that [argProvider.getArguments()]
    returns; the output writer takes no part in parsing. *)
Record FlagSet : Type := mkFlagSet {
  flags : list (string * Flag);
  aliases : list (string * string);
  argProvider : list string;
  _programName : string;
  _isParsed : bool;
  _processingArgs : list string
}.

Definition withFlags (fs : FlagSet) (m : list (string * Flag)) : FlagSet :=
  mkFlagSet m (aliases fs) (argProvider fs) (_programName fs) (_isParsed fs)
            (_processingArgs fs).

Definition withAliases (fs : FlagSet) (m : list (string * string)) : FlagSet :=
  mkFlagSet (flags fs) m (argProvider fs) (_programName fs) (_isParsed fs)
            (_processingArgs fs).

Definition withIsParsed (fs : FlagSet) (b : bool) : FlagSet :=
  mkFlagSet (flags fs) (aliases fs) (argProvider fs) (_programName fs) b
            (_processingArgs fs).

Definition withProcessingArgs (fs : FlagSet) (q : list string) : FlagSet :=
  mkFlagSet (flags fs) (aliases fs) (argProvider fs) (_programName fs)
            (_isParsed fs) q.

(** [new FlagSet(programName, {argProvider})], with the program name
    already resolved. *)
Definition new_FlagSet (programName : string) (args : list string) : FlagSet :=
  mkFlagSet [] [] args programName false [].

Fixpoint includes (l : list string) (x : string) : bool :=
  match l with
  | [] => false
  | y :: l' => String.eqb y x || includes l' x
  end.

Definition _registerFlag (fs : FlagSet) (flag : Flag) : FlagSet * completion unit :=
  if JsMap.has (flags fs) (name flag) || JsMap.has (aliases fs) (name flag)
  then (fs, Throw (FlagDefinitionError
                     ("Flag name or alias " ++ dquote ++ name flag ++ dquote
                      ++ " is already registered.")))
  else
    let plain := (withFlags fs (JsMap.set (flags fs) (name flag) flag), Normal tt) in
    match alias flag with
    | Some a =>
        if JsString.truthy a then
          if JsMap.has (flags fs) a || JsMap.has (aliases fs) a
             || includes (JsMap.values (aliases fs)) a
          then (fs, Throw (FlagDefinitionError
                             ("Alias " ++ dquote ++ a ++ dquote ++ " (for flag "
                              ++ dquote ++ name flag ++ dquote
                              ++ ") is already registered as a name or alias.")))
          else
            let fs1 := withAliases fs (JsMap.set (aliases fs) a (name flag)) in
            (withFlags fs1 (JsMap.set (flags fs1) (name flag) flag), Normal tt)
        else plain
    | None => plain
    end.

(** The options object of the four factory methods. *)
Record FlagOptions (T : Type) : Type := mkOptions {
  optDescription : string;
  optAlias : option string;
  optDefaultValue : option T
}.
Arguments mkOptions {T} _ _ _.
Arguments optDescription {T} _.
Arguments optAlias {T} _.
Arguments optDefaultValue {T} _.

(** The body the four factory methods share once the value holder is
    built: construct the [Flag], register it, return it. *)
Definition declare (fs : FlagSet) (name description : string)
           (alias : option string) (valueHolder : IFlag)
  : FlagSet * completion Flag :=
  match new_Flag name description alias valueHolder with
  | Throw e => (fs, Throw e)
  | Normal flag =>
      match _registerFlag fs flag with
      | (fs', Throw e) => (fs', Throw e)
      | (fs', Normal _) => (fs', Normal flag)
      end
  end.

Definition orDefault {T : Type} (o : option T) (d : T) : T :=
  match o with
  | Some x => x
  | None => d
  end.

Module FlagSetOps.

Definition bool (fs : FlagSet) (name : string) (options : FlagOptions Datatypes.bool) :=
  declare fs name (optDescription options) (optAlias options)
          (BooleanValue (orDefault (optDefaultValue options) false)).

Definition string (fs : FlagSet) (name : String.string)
           (options : FlagOptions String.string) :=
  declare fs name (optDescription options) (optAlias options)
          (StringValue (orDefault (optDefaultValue options) "")).

Definition number (fs : FlagSet) (name : String.string) (options : FlagOptions number) :=
  declare fs name (optDescription options) (optAlias options)
          (NumberValue (orDefault (optDefaultValue options) (Decimal false 0 0))).

Definition stringList (fs : FlagSet) (name : String.string)
           (options : FlagOptions (list String.string)) :=
  declare fs name (optDescription options) (optAlias options)
          (new_StringListValue (orDefault (optDefaultValue options) [])).

End FlagSetOps.

(** [this.flags.forEach(flag => flag._resetToDefault())]: the entries
    already visited keep their reset when a later one throws. *)
Fixpoint resetAll (m : list (string * Flag)) : list (string * Flag) * completion unit :=
  match m with
  | [] => ([], Normal tt)
  | (k, f) :: m' =>
      match FlagOps._resetToDefault f with
      | Throw e => (m, Throw e)
      | Normal f' =>
          let (m'', r) := resetAll m' in ((k, f') :: m'', r)
      end
  end.

Definition reset (fs : FlagSet) : FlagSet * completion unit :=
  match resetAll (flags fs) with
  | (m, Throw e) => (withFlags fs m, Throw e)
  | (m, Normal _) =>
      (withProcessingArgs (withIsParsed (withFlags fs m) false) [], Normal tt)
  end.

(** ** The token parser *)

(** Lines 321-325 of [_parseOne]: split the stripped token at its first
    [=] into the identifier and the inline value. *)
Definition splitAtEquals (flagIdentifier : string) : string * option string :=
  match JsString.indexOf flagIdentifier "=" with
  | Some equalsIndex =>
      (JsString.substringTo equalsIndex flagIdentifier,
       Some (JsString.substringFrom (equalsIndex + 1) flagIdentifier))
  | None => (flagIdentifier, None)
  end.

(** Lines 318-325: strip the leading [--] or [-], then split. *)
Definition splitToken (arg : string) : string * option string :=
  let isFullOption := JsString.startsWith arg "--" in
  splitAtEquals (if isFullOption then JsString.substringFrom 2 arg
                 else JsString.substringFrom 1 arg).

(** Lines 335-336: [this.aliases.get(id) || id], then [this.flags.get]. *)
Definition resolvedFlagName (fs : FlagSet) (flagIdentifier : string) : string :=
  match JsMap.get (aliases fs) flagIdentifier with
  | Some n => if JsString.truthy n then n else flagIdentifier
  | None => flagIdentifier
  end.

Definition resolve (fs : FlagSet) (flagIdentifier : string) : option Flag :=
  JsMap.get (flags fs) (resolvedFlagName fs flagIdentifier).

(** Lines 343-361, the body of the [try]: the queue it leaves and the
    flag it assigned, or what it threw. *)
Definition acquireAndApply (flag : Flag) (valueFromEqualsSyntax : option string)
           (queue : list string) : list string * completion Flag :=
  if FlagOps.expectsExplicitValue flag then
    match valueFromEqualsSyntax with
    | Some v => (queue, FlagOps._setValueFromString flag v)
    | None =>
        let requiresValue :=
          Throw (ParseError (new_FlagParseError "requires a value" (Some (name flag)) None)) in
        match queue with
        | [] => (queue, requiresValue)
        | next :: queue' =>
            if JsString.startsWith next "-" then (queue, requiresValue)
            else (queue', FlagOps._setValueFromString flag next)
        end
    end
  else
    match valueFromEqualsSyntax with
    | Some v => (queue, FlagOps._setValueFromString flag v)
    | None => (queue, FlagOps._setImplicitly flag)
    end.

(** Lines 362-367, the [catch]: the error is thrown again under the flag's
    name. *)
Definition rethrow (flag : Flag) (valueFromEqualsSyntax : option string) (e : exn)
  : exn :=
  match e with
  | ParseError pe =>
      ParseError (new_FlagParseError (message pe) (Some (name flag))
                    (match offendingValue pe with
                     | Some v => Some v
                     | None => valueFromEqualsSyntax
                     end))
  | _ =>
      ParseError (new_FlagParseError (exnMessage e) (Some (name flag))
                    valueFromEqualsSyntax)
  end.

Definition _parseOne (fs : FlagSet) : FlagSet * completion _ParseOneOutcome :=
  match _processingArgs fs with
  | [] => (fs, Throw (TypeError "Cannot read properties of undefined"))
  | arg :: rest =>
      if String.eqb arg "--"
      then (withProcessingArgs fs rest, Normal TERMINATOR_CONSUMED)
      else if negb (JsString.startsWith arg "-") || String.eqb arg "-"
      then (fs, Normal NOT_A_FLAG_ENCOUNTERED)
      else
        let fs1 := withProcessingArgs fs rest in
        let (flagIdentifier, valueFromEqualsSyntax) := splitToken arg in
        if (String.length flagIdentifier =? 0)%nat
           || JsString.startsWith flagIdentifier "-"
        then (fs1, Throw (ParseError
                            (new_FlagParseError "Invalid flag identifier syntax"
                                                (Some arg) None)))
        else if String.eqb flagIdentifier "h" || String.eqb flagIdentifier "help"
        then (fs1, Throw HelpRequestError)
        else
          match resolve fs1 flagIdentifier with
          | None => (fs1, Throw (ParseError
                                   (new_FlagParseError "Unknown flag"
                                                       (Some flagIdentifier) None)))
          | Some flag =>
              match acquireAndApply flag valueFromEqualsSyntax rest with
              | (queue, Normal flag') =>
                  (withProcessingArgs
                     (withFlags fs1 (JsMap.set (flags fs1)
                                               (resolvedFlagName fs1 flagIdentifier) flag'))
                     queue,
                   Normal FLAG_CONSUMED_AND_PROCESSED)
              | (queue, Throw e) =>
                  (withProcessingArgs fs1 queue,
                   Throw (rethrow flag valueFromEqualsSyntax e))
              end
          end
  end.

(** A processed flag token has left the queue, with the value token it
    took: this is what ends the [while] loop of [parse]. *)
Lemma acquireAndApply_queue flag inline queue queue' r :
  acquireAndApply flag inline queue = (queue', r) ->
  length queue' <= length queue.
Proof.
  unfold acquireAndApply.
  destruct (FlagOps.expectsExplicitValue flag), inline as [v|];
    try (intros [= <- _]; lia).
  destruct queue as [|next queue0]; [intros [= <- _]; lia|].
  destruct (JsString.startsWith next "-"); intros [= <- _]; simpl; lia.
Qed.

Lemma _parseOne_consumes fs fs' :
  _parseOne fs = (fs', Normal FLAG_CONSUMED_AND_PROCESSED) ->
  length (_processingArgs fs') < length (_processingArgs fs).
Proof.
  unfold _parseOne.
  destruct (_processingArgs fs) as [|arg rest]; [discriminate|].
  destruct (String.eqb arg "--"); [discriminate|].
  destruct (negb (JsString.startsWith arg "-") || String.eqb arg "-");
    [discriminate|].
  destruct (splitToken arg) as [ident inline].
  destruct ((String.length ident =? 0)%nat || JsString.startsWith ident "-");
    [discriminate|].
  destruct (String.eqb ident "h" || String.eqb ident "help"); [discriminate|].
  destruct (resolve _ ident) as [flag|]; [|discriminate].
  destruct (acquireAndApply flag inline rest) as [queue [flag'|e]] eqn:E;
    [|discriminate].
  intros [= <-]. apply acquireAndApply_queue in E. simpl. lia.
Qed.

(** Keeps the equation of a case analysis in scope. *)
Definition inspect {A : Type} (x : A) : {y : A | x = y} := exist _ x eq_refl.

(** Lines 379-390 of [parse]: the [while] loop over the queue. *)
Equations? parseLoop (fs : FlagSet) : FlagSet * completion unit
  by wf (length (_processingArgs fs)) lt :=
  parseLoop fs with inspect (_processingArgs fs) := {
    | exist _ nil _ => (fs, Normal tt);
    | exist _ (cons _ _) _ with inspect (_parseOne fs) := {
        | exist _ (fs', Throw e) _ => (fs', Throw e);
        | exist _ (fs', Normal FLAG_CONSUMED_AND_PROCESSED) step => parseLoop fs';
        | exist _ (fs', Normal _) _ => (withProcessingArgs fs' [], Normal tt) } }.
Proof.
  apply _parseOne_consumes. exact step.
Qed.

(** [parse(argv)] *)
Definition parse (fs : FlagSet) (argv : option (list string))
  : FlagSet * completion unit :=
  let finish (s : FlagSet) := withProcessingArgs (withIsParsed s true) [] in
  match (if _isParsed fs then reset fs else (fs, Normal tt)) with
  | (fs0, Throw e) => (fs0, Throw e)
  | (fs0, Normal _) =>
      let fs1 := withProcessingArgs fs0 (orDefault argv (argProvider fs0)) in
      match parseLoop fs1 with
      | (fs2, Throw e) => (finish fs2, Throw e)
      | (fs2, Normal _) => (finish fs2, Normal tt)
      end
  end.

(** ** Registries used as concrete inputs *)

(** The registry of the test suite's parsing tests: [verbose]/[v],
    [config]/[c] with default [default.json], [port]/[p], [include]/[i]. *)
Definition testFlagSet : FlagSet :=
  let fs0 := new_FlagSet "test-cli" [] in
  let fs1 := fst (FlagSetOps.bool fs0 "verbose"
                    (mkOptions "Verbose output" (Some "v") None)) in
  let fs2 := fst (FlagSetOps.string fs1 "config"
                    (mkOptions "Config file" (Some "c") (Some "default.json"))) in
  let fs3 := fst (FlagSetOps.number fs2 "port"
                    (mkOptions "Port number" (Some "p") None)) in
  fst (FlagSetOps.stringList fs3 "include"
         (mkOptions "Include paths" (Some "i") None)).

(** A string flag declared without [defaultValue], as in the test suite's
    [flagSet.string("name", { description: "d" })]. *)
Definition nameFlagSet : FlagSet :=
  fst (FlagSetOps.string (new_FlagSet "test-cli" []) "name" (mkOptions "d" None None)).

(** A boolean flag whose alias is [h]. *)
Definition aliasHFlagSet : FlagSet :=
  fst (FlagSetOps.bool (new_FlagSet "test-cli" []) "verbose"
         (mkOptions "Verbose output" (Some "h") None)).

(** A string flag whose alias is [h]. *)
Definition configHFlagSet : FlagSet :=
  fst (FlagSetOps.string (new_FlagSet "test-cli" []) "config"
         (mkOptions "Config file" (Some "h") (Some "default.json"))).

(** A boolean flag named [help], with the alias [x]. *)
Definition helpNamedFlagSet : FlagSet :=
  fst (FlagSetOps.bool (new_FlagSet "test-cli" []) "help"
         (mkOptions "Show help" (Some "x") None)).

(** The value of the flag registered under [name], as [flag.value] reads it. *)
Definition valueOf (fs : FlagSet) (name : string) : option value :=
  option_map FlagOps.value (JsMap.get (flags fs) name).

(** ** Vocabulary of the statements *)

(** A token that [_parseOne] strips and splits: not the terminator, starts
    with [-], not the lone [-] (lines 305-312). *)
Definition isFlagToken (arg : string) : bool :=
  negb (String.eqb arg "--") && JsString.startsWith arg "-"
  && negb (String.eqb arg "-").

(** An identifier that passes the syntax check of line 327. *)
Definition validIdentifier (flagIdentifier : string) : bool :=
  negb (String.length flagIdentifier =? 0)%nat
  && negb (JsString.startsWith flagIdentifier "-").

(** An identifier that line 331 takes as the help request. *)
Definition isHelp (flagIdentifier : string) : bool :=
  String.eqb flagIdentifier "h" || String.eqb flagIdentifier "help".

(** The registry once the flag resolved from [flagIdentifier] has become
    [flag'] and the queue is [queue]. *)
Definition assigned (fs : FlagSet) (flagIdentifier : string) (flag' : Flag)
           (queue : list string) : FlagSet :=
  withProcessingArgs
    (withFlags fs (JsMap.set (flags fs) (resolvedFlagName fs flagIdentifier) flag'))
    queue.

(** What [_parseOne] returns for a resolved flag once [set] was called on
    its value holder: the assignment, or the error under the flag's name. *)
Definition afterSet (fs : FlagSet) (flagIdentifier : string) (flag : Flag)
           (valueFromEqualsSyntax : option string) (queue : list string)
           (r : completion IFlag) : FlagSet * completion _ParseOneOutcome :=
  match r with
  | Normal holder =>
      (assigned fs flagIdentifier (withValue flag holder true) queue,
       Normal FLAG_CONSUMED_AND_PROCESSED)
  | Throw e =>
      (withProcessingArgs fs queue, Throw (rethrow flag valueFromEqualsSyntax e))
  end.

(** The error of line 350 as the [catch] of line 364 throws it again. *)
Definition requiresValue (flag : Flag) : exn :=
  rethrow flag None
          (ParseError (new_FlagParseError "requires a value" (Some (name flag)) None)).

(** [processed fs fs']: starting at [fs], the loop of [parse] has consumed
    and processed zero or more flag tokens and stands at [fs']. *)
Inductive processed : FlagSet -> FlagSet -> Prop :=
| processed_refl fs : processed fs fs
| processed_step fs fs1 fs' :
    _parseOne fs = (fs1, Normal FLAG_CONSUMED_AND_PROCESSED) ->
    processed fs1 fs' ->
    processed fs fs'.

(** What [_parseOne] has decided from the token alone, before it looks at
    the rest of the queue. *)
Inductive headResult : Type :=
| HTerminator
| HNotAFlag
| HThrow (e : exn)
| HResolved (flag : Flag) (key : string) (valueFromEqualsSyntax : option string).

Definition parseHead (fs : FlagSet) (arg : string) : headResult :=
  if String.eqb arg "--" then HTerminator
  else if negb (JsString.startsWith arg "-") || String.eqb arg "-" then HNotAFlag
  else
    let (flagIdentifier, valueFromEqualsSyntax) := splitToken arg in
    if (String.length flagIdentifier =? 0)%nat
       || JsString.startsWith flagIdentifier "-"
    then HThrow (ParseError (new_FlagParseError "Invalid flag identifier syntax"
                                                (Some arg) None))
    else if String.eqb flagIdentifier "h" || String.eqb flagIdentifier "help"
    then HThrow HelpRequestError
    else
      match resolve fs flagIdentifier with
      | None => HThrow (ParseError (new_FlagParseError "Unknown flag"
                                                       (Some flagIdentifier) None))
      | Some flag =>
          HResolved flag (resolvedFlagName fs flagIdentifier) valueFromEqualsSyntax
      end.

(** The rest of the step, from that decision and the queue behind the
    token. *)
Definition finishStep (fs : FlagSet) (arg : string) (rest : list string)
           (h : headResult) : FlagSet * completion _ParseOneOutcome :=
  match h with
  | HTerminator => (withProcessingArgs fs rest, Normal TERMINATOR_CONSUMED)
  | HNotAFlag => (withProcessingArgs fs (arg :: rest), Normal NOT_A_FLAG_ENCOUNTERED)
  | HThrow e => (withProcessingArgs fs rest, Throw e)
  | HResolved flag key inline =>
      match acquireAndApply flag inline rest with
      | (queue, Normal flag') =>
          (withProcessingArgs (withFlags fs (JsMap.set (flags fs) key flag')) queue,
           Normal FLAG_CONSUMED_AND_PROCESSED)
      | (queue, Throw e) =>
          (withProcessingArgs fs queue, Throw (rethrow flag inline e))
      end
  end.

(** Two queues that a value-taking flag cannot tell apart: both empty, or
    both led by the same token, or both led by a token that starts with
    [-]. *)
Definition alike (q1 q2 : list string) : Prop :=
  match q1, q2 with
  | [], [] => True
  | a1 :: _, a2 :: _ =>
      a1 = a2
      \/ (JsString.startsWith a1 "-" = true /\ JsString.startsWith a2 "-" = true)
  | _, _ => False
  end.

(** The result of the loop with the queue it leaves emptied, as [parse]
    empties it. *)
Definition cleared {A : Type} (r : FlagSet * A) : FlagSet * A :=
  (withProcessingArgs (fst r) [], snd r).

(** The check of the [Flag] constructor on an alias (line 138). *)
Definition validAlias (a : string) : bool :=
  (String.length a =? 1)%nat && negb (String.eqb a "-") && negb (String.eqb a "=").

(** A flag name that a token can spell: a valid identifier without [=]
    that is not the help request. *)
Definition plainName (n : string) : bool :=
  validIdentifier n && negb (isHelp n)
  && match JsString.indexOf n "=" with
     | None => true
     | Some _ => false
     end.

(** What registration keeps true of a registry: every alias is a valid
    one, and it stands for a declared flag whose name resolves to itself. *)
Definition WellFormed (fs : FlagSet) : Prop :=
  forall a n,
    JsMap.get (aliases fs) a = Some n ->
    validAlias a = true
    /\ resolvedFlagName fs n = n
    /\ JsMap.has (flags fs) n = true.

(** [sameFlagToken a n t1 t2]: [t2] is [t1], or [t1] is the alias form
    [-a] of a flag token and [t2] its long form [--n], both bare or both
    with the same [=value]. *)
Inductive sameFlagToken (a n : string) : string -> string -> Prop :=
| same_token t : sameFlagToken a n t t
| alias_bare : sameFlagToken a n ("-" ++ a) ("--" ++ n)
| alias_inline v : sameFlagToken a n ("-" ++ a ++ "=" ++ v) ("--" ++ n ++ "=" ++ v).

(** [reached f0 f]: [f] is what the flag object [f0] has become after zero
    or more calls of [_setValueFromString], [_setImplicitly] and
    [_resetToDefault] that returned normally. *)
Inductive reached (f0 : Flag) : Flag -> Prop :=
| reached_start : reached f0 f0
| reached_set f f' stringValue :
    reached f0 f -> FlagOps._setValueFromString f stringValue = Normal f' ->
    reached f0 f'
| reached_implicit f f' :
    reached f0 f -> FlagOps._setImplicitly f = Normal f' -> reached f0 f'
| reached_reset f f' :
    reached f0 f -> FlagOps._resetToDefault f = Normal f' -> reached f0 f'.

(** The value holders that the factory methods build and whose default
    [_clearAndReset] can restore: a boolean, a string that is not empty, a
    string list still equal to its initial default. *)
Definition restorable (v : IFlag) : Prop :=
  match v with
  | BooleanValue _ => True
  | StringValue s => JsString.truthy s = true
  | NumberValue _ => False
  | StringListValue current initialDefault => current = initialDefault
  end.

(** What every call on a flag keeps: its name, description, alias and
    captured default string, and the kind of its value holder (with the
    initial default of a list). *)
Definition sameFlag (f0 f : Flag) : Prop :=
  name f = name f0 /\ description f = description f0 /\ alias f = alias f0
  /\ initialDefaultValueString f = initialDefaultValueString f0
  /\ match valueHolder f0, valueHolder f with
     | BooleanValue _, BooleanValue _ => True
     | StringValue _, StringValue _ => True
     | NumberValue _, NumberValue _ => True
     | StringListValue _ init0, StringListValue _ init => init = init0
     | _, _ => False
     end.

(** The uniqueness that registration keeps: no flag name and no alias is
    registered twice, an alias stands for a declared flag, and an alias
    that is also a flag name is the alias of that very flag. *)
Definition Unique (fs : FlagSet) : Prop :=
  NoDup (map fst (flags fs))
  /\ NoDup (map fst (aliases fs))
  /\ forall a n, JsMap.get (aliases fs) a = Some n ->
                 JsMap.has (flags fs) n = true
                 /\ (JsMap.has (flags fs) a = true -> a = n).

(** The registries that the factory methods build: a new [FlagSet], then
    any number of calls of [bool], [string], [number] and [stringList]
    ([declare] over the value holder of each), failed calls included. *)
Inductive declared : FlagSet -> Prop :=
| declared_new programName args : declared (new_FlagSet programName args)
| declared_step fs name0 description0 alias0 holder :
    declared fs ->
    declared (fst (declare fs name0 description0 alias0 holder)).

(** Every flag is registered under its own name, and its alias, when it
    has one, is registered for that name. *)
Definition Keyed (fs : FlagSet) : Prop :=
  forall k f,
    JsMap.get (flags fs) k = Some f ->
    name f = k /\ forall a, alias f = Some a -> JsMap.get (aliases fs) a = Some k.

(** [dashForm t1 t2]: [t2] is [t1], or [t1] is [-s] and [t2] is [--s] for
    a string [s] that is not empty and starts neither with [-] nor with
    [=]. *)
Inductive dashForm : string -> string -> Prop :=
| dash_same t : dashForm t t
| dash_single_double s :
    JsString.truthy s = true ->
    JsString.startsWith s "-" = false ->
    JsString.startsWith s "=" = false ->
    dashForm ("-" ++ s) ("--" ++ s).

(** [sameRegistry fs fs']: [fs'] has the aliases, the program name and the
    argument provider of [fs], and the same flags under the same names in
    the same order, each with its identity and the kind of its value kept
    ([sameFlag]). *)
Definition sameRegistry (fs fs' : FlagSet) : Prop :=
  aliases fs' = aliases fs
  /\ _programName fs' = _programName fs
  /\ argProvider fs' = argProvider fs
  /\ Forall2 (fun kf kf' => fst kf' = fst kf /\ sameFlag (snd kf) (snd kf'))
             (flags fs) (flags fs').

(** ** Help text *)

(** The flags of the help test of the test suite, in the order of their
    names. *)
Definition helpTestFlags : list Flag :=
  [mkFlag "file" "Input file." None (StringValue "input.txt") "input.txt" false;
   mkFlag "retries" "Number of retries." None (NumberValue (Decimal false 0 0))
          "0" false;
   mkFlag "verbose" "Enable verbose output." (Some "v") (BooleanValue false)
          "false" false].

Module Help.

Definition newline : string := String (ascii_of_nat 10) EmptyString.

Fixpoint spaces (n : nat) : string :=
  match n with
  | O => EmptyString
  | S n' => String " " (spaces n')
  end.

(** [s.padEnd(targetLength)] *)
Definition padEnd (s : string) (targetLength : nat) : string :=
  s ++ spaces (targetLength - String.length s).

(** [s.includes(" ")] *)
Definition includesSpace (s : string) : bool :=
  match JsString.indexOf s " " with
  | Some _ => true
  | None => false
  end.

Definition hexDigit (n : nat) : ascii :=
  ascii_of_nat (if (n <? 10)%nat then 48 + n else 87 + n).

(** One code unit below 256 as [JSON.stringify] writes it inside a string:
    the quote and the backslash escaped, the control characters as their
    short escape or as four lower-case hex digits. *)
Definition jsonChar (c : ascii) : string :=
  let n := nat_of_ascii c in
  let backslash := String (ascii_of_nat 92) EmptyString in
  if (n =? 34)%nat then backslash ++ dquote
  else if (n =? 92)%nat then backslash ++ backslash
  else if (n =? 8)%nat then backslash ++ "b"
  else if (n =? 12)%nat then backslash ++ "f"
  else if (n =? 10)%nat then backslash ++ "n"
  else if (n =? 13)%nat then backslash ++ "r"
  else if (n =? 9)%nat then backslash ++ "t"
  else if (n <? 32)%nat
  then backslash ++ "u00" ++ String (hexDigit (n / 16)) (String (hexDigit (n mod 16)) "")
  else String c EmptyString.

Fixpoint jsonChars (s : string) : string :=
  match s with
  | EmptyString => EmptyString
  | String c s' => jsonChar c ++ jsonChars s'
  end.

(** [JSON.stringify(s)] for a string. *)
Definition jsonStringify (s : string) : string := dquote ++ jsonChars s ++ dquote.

Definition _formatFlagSyntaxForHelp (flag : Flag) : string :=
  let aliasStr :=
    match alias flag with
    | Some a => if JsString.truthy a then "-" ++ a ++ ", " else ""
    | None => ""
    end in
  let syntax := "  " ++ aliasStr ++ "--" ++ name flag in
  let typeName := FlagOps.typeName flag in
  if FlagOps.expectsExplicitValue flag || String.eqb typeName "boolean" then
    let displayType := if String.eqb typeName "string[]" then "string" else typeName in
    syntax ++ (if String.eqb typeName "boolean"
               then " [=" ++ displayType ++ "]"
               else " <" ++ displayType ++ ">")
  else syntax.

(** [None] is [null]. *)
Definition _formatDefaultValueForHelp (flag : Flag) : option string :=
  let defaultString := FlagOps.defaultValueAsString flag in
  let typeName := FlagOps.typeName flag in
  if String.eqb typeName "boolean" && String.eqb defaultString "false" then None
  else if String.eqb typeName "string" && String.eqb defaultString "" then None
  else if String.eqb typeName "string[]" && String.eqb defaultString "" then None
  else if String.eqb typeName "string" then
    Some (if includesSpace defaultString || String.eqb defaultString ""
          then jsonStringify defaultString
          else defaultString)
  else Some defaultString.

(** [Math.max] folded over the lengths of the syntax strings, from [0]. *)
Definition maxSyntaxWidth (flagSyntaxStrings : list string) : nat :=
  fold_left (fun m syntax => Nat.max m (String.length syntax)) flagSyntaxStrings 0.

(** One line of [optionDetailLines] (lines 451-461 of [generateHelp]). *)
Definition optionDetailLine (nameColumnWidth : nat) (flag : Flag) : string :=
  let syntaxPart := padEnd (_formatFlagSyntaxForHelp flag) nameColumnWidth in
  let line := syntaxPart ++ description flag in
  match _formatDefaultValueForHelp flag with
  | Some defaultDisplayString => line ++ " (default: " ++ defaultDisplayString ++ ")"
  | None => line
  end.

(** Lines 446-461 of [generateHelp], from the flags already sorted. *)
Definition optionDetailLines (sortedFlags : list Flag) : list string :=
  let flagSyntaxStrings := map _formatFlagSyntaxForHelp sortedFlags in
  let nameColumnWidth := Nat.min (maxSyntaxWidth flagSyntaxStrings + 4) 45 in
  map (optionDetailLine nameColumnWidth) sortedFlags.

(** [generateHelp()] from line 441 on: [sortedFlags] is the array that
    line 439 gets from the host's [sort] with [localeCompare]. *)
Definition generateHelpFrom (fs : FlagSet) (sortedFlags : list Flag) : string :=
  let usageLine := "Usage: " ++ _programName fs ++ " [options] ..." in
  let helpParts := [usageLine; newline ++ "Options:"] in
  match sortedFlags with
  | [] => JsString.join newline (helpParts ++ ["  (No options defined)"])%list ++ newline
  | _ => JsString.join newline (helpParts ++ optionDetailLines sortedFlags)%list
         ++ newline
  end.

End Help.

(** * Properties *)

(** ** The loop, one iteration at a time *)

Lemma parseLoop_step fs :
  parseLoop fs =
  match _processingArgs fs with
  | [] => (fs, Normal tt)
  | _ :: _ =>
      match _parseOne fs with
      | (fs', Throw e) => (fs', Throw e)
      | (fs', Normal FLAG_CONSUMED_AND_PROCESSED) => parseLoop fs'
      | (fs', Normal _) => (withProcessingArgs fs' [], Normal tt)
      end
  end.
Proof.
  funelim (parseLoop fs);
    repeat match goal with
      | H : _processingArgs ?f = _ |- context [_processingArgs ?f] => rewrite H
      | H : _parseOne ?f = _ |- context [_parseOne ?f] => rewrite H
      end; reflexivity.
Qed.

(** A step that throws has changed nothing but the queue. *)
Lemma _parseOne_throw fs fs' e :
  _parseOne fs = (fs', Throw e) ->
  exists queue, fs' = withProcessingArgs fs queue.
Proof.
  unfold _parseOne.
  destruct (_processingArgs fs) as [|arg rest] eqn:Hq.
  { intros [= <- _]. exists []. destruct fs; cbn in *. subst. reflexivity. }
  destruct (String.eqb arg "--"); [discriminate|].
  destruct (negb (JsString.startsWith arg "-") || String.eqb arg "-");
    [discriminate|].
  destruct (splitToken arg) as [ident inline].
  destruct ((String.length ident =? 0)%nat || JsString.startsWith ident "-");
    [intros [= <- _]; eauto|].
  destruct (String.eqb ident "h" || String.eqb ident "help");
    [intros [= <- _]; eauto|].
  destruct (resolve _ ident) as [flag|]; [|intros [= <- _]; eauto].
  destruct (acquireAndApply flag inline rest) as [queue [flag'|e']];
    [discriminate|].
  intros [= <- _]. exists queue. reflexivity.
Qed.

Lemma parseLoop_processed fs fs' :
  processed fs fs' -> parseLoop fs = parseLoop fs'.
Proof.
  induction 1 as [fs|fs fs1 fs' Hstep _ IH]; [reflexivity|].
  rewrite parseLoop_step, Hstep.
  destruct (_processingArgs fs) eqn:Hq; [|exact IH].
  unfold _parseOne in Hstep. rewrite Hq in Hstep. discriminate.
Qed.

(** ** Terminal state of [parse] *)

(** C4, as the code has it: every call of [parse] leaves [isParsed] true,
    whether it completes, fails with a parse error or raises the help
    signal (the [catch] of [parse] records it for any exception). *)
Theorem parse_sets_isParsed (fs : FlagSet) (argv : option (list string)) :
  _isParsed (fst (parse fs argv)) = true.
Proof.
  unfold parse.
  destruct (_isParsed fs) eqn:Hp.
  - unfold reset.
    destruct (resetAll (flags fs)) as [m [[]|e]]; cbn.
    + destruct (parseLoop _) as [fs2 [[]|e]]; reflexivity.
    + exact Hp.
  - destruct (parseLoop _) as [fs2 [[]|e]]; reflexivity.
Qed.

(** C4, counterexample: on a registry that was never parsed, [-h] raises
    the help signal and [isParsed] goes from false to true. *)
Lemma help_signal_sets_isParsed :
  _isParsed testFlagSet = false
  /\ snd (parse testFlagSet (Some ["-h"])) = Throw HelpRequestError
  /\ _isParsed (fst (parse testFlagSet (Some ["-h"]))) <> _isParsed testFlagSet.
Proof.
  repeat split; try reflexivity.
  vm_compute. discriminate.
Qed.

(** ** One flag token *)

(** A flag token with a well-formed identifier that is not the help
    request is resolved against the registry, and the resolved flag gets
    its value from [acquireAndApply]. *)
Lemma _parseOne_flag_token fs arg rest ident inline :
  _processingArgs fs = arg :: rest ->
  isFlagToken arg = true ->
  splitToken arg = (ident, inline) ->
  validIdentifier ident = true ->
  isHelp ident = false ->
  _parseOne fs =
  match resolve fs ident with
  | None =>
      (withProcessingArgs fs rest,
       Throw (ParseError (new_FlagParseError "Unknown flag" (Some ident) None)))
  | Some flag =>
      match acquireAndApply flag inline rest with
      | (queue, Normal flag') =>
          (assigned fs ident flag' queue, Normal FLAG_CONSUMED_AND_PROCESSED)
      | (queue, Throw e) =>
          (withProcessingArgs fs queue, Throw (rethrow flag inline e))
      end
  end.
Proof.
  intros Hq Htok Hsplit Hid Hhelp.
  unfold isFlagToken in Htok.
  apply andb_prop in Htok as [Htok Hlone].
  apply andb_prop in Htok as [Hterm Hdash].
  apply negb_true_iff in Hterm, Hlone.
  unfold validIdentifier in Hid.
  apply andb_prop in Hid as [Hlen Hlead].
  apply negb_true_iff in Hlen, Hlead.
  unfold isHelp in Hhelp.
  unfold _parseOne.
  rewrite Hq, Hterm, Hdash, Hlone, Hsplit. cbn [negb orb].
  rewrite Hlen, Hlead, Hhelp. cbn [orb].
  reflexivity.
Qed.

Lemma expectsExplicitValue_false flag :
  FlagOps.expectsExplicitValue flag = false ->
  exists b, valueHolder flag = BooleanValue b.
Proof.
  unfold FlagOps.expectsExplicitValue.
  destruct (valueHolder flag); try discriminate. eauto.
Qed.

(** A flag token with a well-formed identifier that is the help request
    raises the help signal; the registry is not consulted (line 331). *)
Lemma _parseOne_help_token fs arg rest ident inline :
  _processingArgs fs = arg :: rest ->
  isFlagToken arg = true ->
  splitToken arg = (ident, inline) ->
  validIdentifier ident = true ->
  isHelp ident = true ->
  _parseOne fs = (withProcessingArgs fs rest, Throw HelpRequestError).
Proof.
  intros Hq Htok Hsplit Hid Hhelp.
  unfold isFlagToken in Htok.
  apply andb_prop in Htok as [Htok Hlone].
  apply andb_prop in Htok as [Hterm Hdash].
  apply negb_true_iff in Hterm, Hlone.
  unfold validIdentifier in Hid.
  apply andb_prop in Hid as [Hlen Hlead].
  apply negb_true_iff in Hlen, Hlead.
  unfold isHelp in Hhelp.
  unfold _parseOne.
  rewrite Hq, Hterm, Hdash, Hlone, Hsplit. cbn [negb orb].
  rewrite Hlen, Hlead, Hhelp. cbn [orb].
  reflexivity.
Qed.

(** C3, as the code has it: take a flag token (it starts with [-] and is
    neither [-] nor [--]) whose identifier is well formed and resolves to
    a boolean flag.  When the identifier is [h] or [help], the step raises
    the help signal and assigns nothing.  Otherwise a token without
    [=value] sets the flag to true and leaves the whole rest of the queue
    in place, whatever the next token is, and the loop of [parse] goes on
    with that rest; with [=value], that value goes through the boolean's
    [set], and the flag holds the result or the error of [set] is thrown
    again by the [catch] under the flag's name. *)
Theorem boolean_flag_token fs arg rest ident inline flag :
  _processingArgs fs = arg :: rest ->
  isFlagToken arg = true ->
  splitToken arg = (ident, inline) ->
  validIdentifier ident = true ->
  resolve fs ident = Some flag ->
  FlagOps.expectsExplicitValue flag = false ->
  _parseOne fs =
  (if isHelp ident
   then (withProcessingArgs fs rest, Throw HelpRequestError)
   else
     match inline with
     | None =>
         (assigned fs ident (withValue flag (BooleanValue true) true) rest,
          Normal FLAG_CONSUMED_AND_PROCESSED)
     | Some v => afterSet fs ident flag inline rest (Value.set (valueHolder flag) v)
     end)
  /\ (isHelp ident = false -> inline = None ->
      parseLoop fs
      = parseLoop (assigned fs ident (withValue flag (BooleanValue true) true) rest)).
Proof.
  intros Hq Htok Hsplit Hid Hres Hbool.
  assert (Hstep : isHelp ident = false ->
            _parseOne fs =
            match inline with
            | None =>
                (assigned fs ident (withValue flag (BooleanValue true) true) rest,
                 Normal FLAG_CONSUMED_AND_PROCESSED)
            | Some v =>
                afterSet fs ident flag inline rest (Value.set (valueHolder flag) v)
            end).
  { intros Hhelp.
    rewrite (_parseOne_flag_token _ _ _ _ _ Hq Htok Hsplit Hid Hhelp), Hres.
    unfold acquireAndApply. rewrite Hbool.
    destruct (expectsExplicitValue_false _ Hbool) as [b Hb].
    destruct inline as [v|].
    - unfold FlagOps._setValueFromString, afterSet.
      destruct (Value.set (valueHolder flag) v); reflexivity.
    - unfold FlagOps._setImplicitly. rewrite Hb. reflexivity. }
  split.
  - destruct (isHelp ident) eqn:Hhelp.
    + exact (_parseOne_help_token _ _ _ _ _ Hq Htok Hsplit Hid Hhelp).
    + exact (Hstep eq_refl).
  - intros Hhelp Hinline.
    rewrite parseLoop_step, Hq, (Hstep Hhelp), Hinline. reflexivity.
Qed.

(** [--verbose false] in the registry of the test suite. *)
Lemma boolean_flag_token_witness :
  _parseOne (withProcessingArgs testFlagSet ["--verbose"; "false"])
  = (assigned testFlagSet "verbose"
       (mkFlag "verbose" "Verbose output" (Some "v") (BooleanValue true) "false" true)
       ["false"],
     Normal FLAG_CONSUMED_AND_PROCESSED).
Proof.
  exact (proj1 (boolean_flag_token
           (withProcessingArgs testFlagSet ["--verbose"; "false"])
           "--verbose" ["false"] "verbose" None
           (mkFlag "verbose" "Verbose output" (Some "v") (BooleanValue false) "false" false)
           eq_refl eq_refl eq_refl eq_refl eq_refl eq_refl)).
Defined.

(** C3, counterexample: after [--verbose false] the token [false] is still
    in the queue and [verbose] is true, not false; the whole parse ends
    with [verbose] true as well. *)
Lemma boolean_ignores_following_token :
  let fs' := fst (_parseOne (withProcessingArgs testFlagSet ["--verbose"; "false"])) in
  _processingArgs fs' = ["false"]
  /\ valueOf fs' "verbose" = Some (VBoolean true)
  /\ valueOf (fst (parse testFlagSet (Some ["--verbose"; "false"]))) "verbose"
     <> Some (VBoolean false).
Proof.
  repeat split; try reflexivity.
  vm_compute. discriminate.
Qed.

(** C6, as the code has it: take a flag token (it starts with [-] and is
    neither [-] nor [--]) whose identifier is well formed and resolves to
    a flag that requires an explicit value.  When the identifier is [h] or
    [help], the step raises the help signal and assigns nothing.
    Otherwise the flag takes the inline value and the queue stays as it
    is; without an inline value it takes the next token when there is one
    that does not start with [-], and removes it from the queue; and when
    the next token is missing or starts with [-], the step throws the
    requires-a-value error under the flag's name.  A step that throws ends
    the loop, and a call of [parse] that has reached such a token with a
    missing value fails with that error and leaves the registry as the
    earlier tokens made it. *)
Theorem explicit_value_flag_token fs arg rest ident inline flag :
  _processingArgs fs = arg :: rest ->
  isFlagToken arg = true ->
  splitToken arg = (ident, inline) ->
  validIdentifier ident = true ->
  resolve fs ident = Some flag ->
  FlagOps.expectsExplicitValue flag = true ->
  _parseOne fs =
  (if isHelp ident
   then (withProcessingArgs fs rest, Throw HelpRequestError)
   else
     match inline, rest with
     | Some v, _ => afterSet fs ident flag inline rest (Value.set (valueHolder flag) v)
     | None, [] => (withProcessingArgs fs rest, Throw (requiresValue flag))
     | None, next :: rest' =>
         if JsString.startsWith next "-"
         then (withProcessingArgs fs rest, Throw (requiresValue flag))
         else afterSet fs ident flag inline rest' (Value.set (valueHolder flag) next)
     end)
  /\ (exists pe, requiresValue flag = ParseError pe
                 /\ flagName pe = Some (name flag)
                 /\ offendingValue pe = None)
  /\ (forall s e, _parseOne fs = (s, Throw e) -> parseLoop fs = (s, Throw e))
  /\ (forall registry argv start,
         (if _isParsed registry then reset registry else (registry, Normal tt))
         = (start, Normal tt) ->
         processed (withProcessingArgs start (orDefault argv (argProvider start))) fs ->
         isHelp ident = false ->
         inline = None ->
         match rest with
         | [] => True
         | next :: _ => JsString.startsWith next "-" = true
         end ->
         parse registry argv
         = (withProcessingArgs (withIsParsed fs true) [], Throw (requiresValue flag))).
Proof.
  intros Hq Htok Hsplit Hid Hres Hexp.
  assert (Hstep : isHelp ident = false ->
            _parseOne fs =
            match inline, rest with
            | Some v, _ =>
                afterSet fs ident flag inline rest (Value.set (valueHolder flag) v)
            | None, [] => (withProcessingArgs fs rest, Throw (requiresValue flag))
            | None, next :: rest' =>
                if JsString.startsWith next "-"
                then (withProcessingArgs fs rest, Throw (requiresValue flag))
                else afterSet fs ident flag inline rest'
                              (Value.set (valueHolder flag) next)
            end).
  { intros Hhelp.
    rewrite (_parseOne_flag_token _ _ _ _ _ Hq Htok Hsplit Hid Hhelp), Hres.
    unfold acquireAndApply. rewrite Hexp.
    unfold FlagOps._setValueFromString, afterSet.
    destruct inline as [v|].
    + destruct (Value.set (valueHolder flag) v); reflexivity.
    + destruct rest as [|next rest']; [reflexivity|].
      destruct (JsString.startsWith next "-"); [reflexivity|].
      destruct (Value.set (valueHolder flag) next); reflexivity. }
  split; [|split; [|split]].
  - destruct (isHelp ident) eqn:Hhelp.
    + exact (_parseOne_help_token _ _ _ _ _ Hq Htok Hsplit Hid Hhelp).
    + exact (Hstep eq_refl).
  - eexists. split; [reflexivity|]. split; reflexivity.
  - intros s e Hthrow. rewrite parseLoop_step, Hq, Hthrow. reflexivity.
  - intros registry argv start Hstart Hproc Hhelp Hinline Hnext.
    assert (Hthrow : _parseOne fs = (withProcessingArgs fs rest, Throw (requiresValue flag))).
    { rewrite (Hstep Hhelp), Hinline.
      destruct rest as [|next rest']; [reflexivity|].
      rewrite Hnext. reflexivity. }
    unfold parse. rewrite Hstart.
    rewrite (parseLoop_processed _ _ Hproc), parseLoop_step, Hq, Hthrow.
    reflexivity.
Qed.

(** [--port=8080 9090] in the registry of the test suite, and a call of
    [parse] on [--verbose --port --config x.json]: [--port] finds
    [--config] where its value should be. *)
Lemma explicit_value_flag_token_witness :
  _parseOne (withProcessingArgs testFlagSet ["--port=8080"; "9090"])
  = (assigned testFlagSet "port"
       (mkFlag "port" "Port number" (Some "p") (NumberValue (Decimal false 8080 0)) "0" true)
       ["9090"],
     Normal FLAG_CONSUMED_AND_PROCESSED)
  /\ parse testFlagSet (Some ["--verbose"; "--port"; "--config"; "x.json"])
     = (withProcessingArgs
          (withIsParsed
             (assigned testFlagSet "verbose"
                (mkFlag "verbose" "Verbose output" (Some "v") (BooleanValue true)
                        "false" true)
                ["--port"; "--config"; "x.json"])
             true)
          [],
        Throw (requiresValue
                 (mkFlag "port" "Port number" (Some "p")
                         (NumberValue (Decimal false 0 0)) "0" false))).
Proof.
  pose (argv := ["--verbose"; "--port"; "--config"; "x.json"]).
  pose (port := mkFlag "port" "Port number" (Some "p")
                       (NumberValue (Decimal false 0 0)) "0" false).
  pose (fs1 := assigned testFlagSet "verbose"
                 (mkFlag "verbose" "Verbose output" (Some "v") (BooleanValue true)
                         "false" true)
                 ["--port"; "--config"; "x.json"]).
  assert (Hproc : processed (withProcessingArgs testFlagSet argv) fs1).
  { eapply processed_step; [reflexivity|apply processed_refl]. }
  split.
  - exact (proj1 (explicit_value_flag_token
             (withProcessingArgs testFlagSet ["--port=8080"; "9090"])
             "--port=8080" ["9090"] "port" (Some "8080") port
             eq_refl eq_refl eq_refl eq_refl eq_refl eq_refl)).
  - exact (proj2 (proj2 (proj2 (explicit_value_flag_token
             fs1 "--port" ["--config"; "x.json"] "port" None port
             eq_refl eq_refl eq_refl eq_refl eq_refl eq_refl)))
             testFlagSet (Some argv) testFlagSet eq_refl Hproc eq_refl eq_refl eq_refl).
Defined.

(** C6, counterexample: [config] requires an explicit value and has the
    alias [h].  The token [-h=user.json] carries an inline value and
    resolves to [config], yet [parse] raises the help signal and [config]
    keeps its default; [-h] alone raises the help signal as well, not the
    requires-a-value error.  Through its long name the flag takes the
    inline value. *)
Lemma inline_value_of_alias_h_is_not_used :
  option_map FlagOps.expectsExplicitValue (resolve configHFlagSet "h") = Some true
  /\ option_map name (resolve configHFlagSet "h") = Some "config"
  /\ splitToken "-h=user.json" = ("h", Some "user.json")
  /\ snd (parse configHFlagSet (Some ["-h=user.json"])) = Throw HelpRequestError
  /\ valueOf (fst (parse configHFlagSet (Some ["-h=user.json"]))) "config"
     = Some (VString "default.json")
  /\ snd (parse configHFlagSet (Some ["-h"])) = Throw HelpRequestError
  /\ valueOf (fst (parse configHFlagSet (Some ["--config=user.json"]))) "config"
     = Some (VString "user.json").
Proof.
  repeat split.
Qed.

(** A boolean flag with the alias [h]: [-h] raises the help signal and
    the flag stays false. *)
Example boolean_alias_h_raises_help :
  option_map FlagOps.expectsExplicitValue (resolve aliasHFlagSet "h") = Some false
  /\ snd (parse aliasHFlagSet (Some ["-h"])) = Throw HelpRequestError
  /\ valueOf (fst (parse aliasHFlagSet (Some ["-h"]))) "verbose" = Some (VBoolean false).
Proof.
  repeat split.
Qed.

(** [--port] with nothing behind it: the error names [port]. *)
Example requires_a_value_scenario :
  snd (parse testFlagSet (Some ["--port"]))
  = Throw (ParseError
             (mkFlagParseError "Flag 'port': Flag 'port': requires a value"
                               (Some "port") None))
  /\ snd (parse testFlagSet (Some ["-p"; "--verbose"]))
     = snd (parse testFlagSet (Some ["--port"])).
Proof.
  split; reflexivity.
Qed.

(** [--port=8080 9090]: the inline value wins and [9090] ends the parse as
    a token that is not a flag. *)
Example inline_value_scenario :
  valueOf (fst (parse testFlagSet (Some ["--port=8080"; "9090"]))) "port"
  = Some (VNumber (Decimal false 8080 0))
  /\ snd (_parseOne (withProcessingArgs testFlagSet ["9090"]))
     = Normal NOT_A_FLAG_ENCOUNTERED.
Proof.
  split; reflexivity.
Qed.

(** Scenarios of the test suite: aliases with values, and a string list
    collected over three tokens. *)
Example alias_scenario :
  let fs' := fst (parse testFlagSet (Some ["-v"; "-c"; "user.json"; "-p"; "3000"])) in
  valueOf fs' "verbose" = Some (VBoolean true)
  /\ valueOf fs' "config" = Some (VString "user.json")
  /\ valueOf fs' "port" = Some (VNumber (Decimal false 3000 0)).
Proof.
  repeat split.
Qed.

Example string_list_scenario :
  valueOf (fst (parse testFlagSet
                  (Some ["--include"; "path/a"; "-i"; "path/b"; "--include=path/c"])))
          "include"
  = Some (VStringList ["path/a"; "path/b"; "path/c"]).
Proof.
  reflexivity.
Qed.

(** ** The number value *)

Lemma longestPrefix_None P s :
  JsNumber.longestPrefix P s = None <->
  forall p, JsString.startsWith s p = true -> P p = false.
Proof.
  revert P. induction s as [|c s IH]; intros P; cbn.
  - split.
    + intros H [|a p] Hp; [|discriminate].
      destruct (P ""); [discriminate|reflexivity].
    + intros H. rewrite (H "" eq_refl). reflexivity.
  - split.
    + intros H.
      destruct (JsNumber.longestPrefix (fun p => P (String c p)) s) eqn:E;
        [discriminate|].
      intros [|a p] Hp.
      * destruct (P ""); [discriminate|reflexivity].
      * cbn in Hp. apply andb_prop in Hp as [Ha Hp].
        apply Ascii.eqb_eq in Ha. subst a.
        exact (proj1 (IH _) E p Hp).
    + intros H.
      assert (E : JsNumber.longestPrefix (fun p => P (String c p)) s = None).
      { apply IH. intros p Hp. apply H. cbn. rewrite Ascii.eqb_refl. exact Hp. }
      rewrite E, (H "" eq_refl). reflexivity.
Qed.

Lemma longestPrefix_Some P s p :
  JsNumber.longestPrefix P s = Some p ->
  JsString.startsWith s p = true /\ P p = true
  /\ forall q, JsString.startsWith s q = true -> P q = true ->
               String.length q <= String.length p.
Proof.
  revert P p. induction s as [|c s IH]; intros P p; cbn.
  - destruct (P "") eqn:E0; [|discriminate].
    intros [= <-]. repeat split; trivial.
    intros [|a q] Hq _; [cbn; lia|discriminate].
  - destruct (JsNumber.longestPrefix (fun p => P (String c p)) s) as [p'|] eqn:E.
    + intros [= <-].
      destruct (IH _ _ E) as (Hpre & HP & Hmax).
      cbn. rewrite Ascii.eqb_refl. repeat split; trivial.
      intros [|a q] Hq HPq; [cbn; lia|].
      cbn in Hq. apply andb_prop in Hq as [Ha Hq].
      apply Ascii.eqb_eq in Ha. subst a.
      cbn. apply le_n_S. apply Hmax; assumption.
    + destruct (P "") eqn:E0; [|discriminate].
      intros [= <-]. repeat split; trivial.
      intros [|a q] Hq HPq; [cbn; lia|].
      cbn in Hq. apply andb_prop in Hq as [Ha Hq].
      apply Ascii.eqb_eq in Ha. subst a.
      rewrite (proj1 (longestPrefix_None _ _) E q Hq) in HPq. discriminate.
Qed.

(** *** Rounding stays within binary64 *)

Section Binary64.
Local Open Scope N_scope.

Lemma pow2_pos n : 0 < 2 ^ n.
Proof. apply N.neq_0_lt_0, N.pow_nonzero. discriminate. Qed.

Lemma pow2_le a b : a <= b -> 2 ^ a <= 2 ^ b.
Proof. intros. apply N.pow_le_mono_r; [discriminate|assumption]. Qed.

Lemma pow2_to_N_add a b :
  (0 <= a)%Z -> (0 <= b)%Z -> 2 ^ Z.to_N (a + b) = 2 ^ Z.to_N a * 2 ^ Z.to_N b.
Proof. intros. rewrite Z2N.inj_add by assumption. apply N.pow_add_r. Qed.

Lemma pow10_split n : 10 ^ n = 2 ^ n * 5 ^ n.
Proof. rewrite <- N.pow_mul_l. reflexivity. Qed.

Lemma distance_scale a b c :
  JsNumber.distance (a * c) (b * c) = JsNumber.distance a b * c.
Proof. unfold JsNumber.distance. nia. Qed.

Lemma below_mono p q k k' :
  (k <= k')%Z -> JsNumber.below p q k -> JsNumber.below p q k'.
Proof.
  unfold JsNumber.below. intros Hk H.
  assert (Hn : 2 ^ Z.to_N (- k') <= 2 ^ Z.to_N (- k)) by (apply pow2_le; lia).
  assert (Hp : 2 ^ Z.to_N k <= 2 ^ Z.to_N k') by (apply pow2_le; lia).
  nia.
Qed.

(** [floorLog2 p q] is the binary logarithm of [p / q], rounded down:
    [2^l <= p / q < 2^(l+1)]. *)
Lemma floorLog2_below p q :
  0 < p -> 0 < q -> JsNumber.below p q (JsNumber.floorLog2 p q + 1).
Proof.
  intros Hp Hq. unfold JsNumber.floorLog2.
  set (lp := N.log2 p). set (lq := N.log2 q).
  set (l := (Z.of_N lp - Z.of_N lq)%Z).
  destruct (N.log2_spec p Hp) as [_ Hpu]. fold lp in Hpu.
  destruct (N.log2_spec q Hq) as [Hql _]. fold lq in Hql.
  match goal with |- context [if ?c then l else _] => destruct c eqn:Hr end.
  - unfold JsNumber.below.
    destruct (Z.leb_spec 0 (l + 1)) as [Hs|Hs].
    + replace (Z.to_N (- (l + 1))) with 0 by lia.
      replace (Z.to_N (l + 1)) with (N.succ lp - lq) by lia.
      assert (E : 2 ^ N.succ lp = 2 ^ lq * 2 ^ (N.succ lp - lq)).
      { rewrite <- N.pow_add_r. f_equal. lia. }
      pose proof (pow2_pos (N.succ lp - lq)). nia.
    + replace (Z.to_N (l + 1)) with 0 by lia.
      replace (Z.to_N (- (l + 1))) with (lq - N.succ lp) by lia.
      assert (E : 2 ^ lq = 2 ^ N.succ lp * 2 ^ (lq - N.succ lp)).
      { rewrite <- N.pow_add_r. f_equal. lia. }
      pose proof (pow2_pos (lq - N.succ lp)). nia.
  - replace (l - 1 + 1)%Z with l by lia. unfold JsNumber.below.
    destruct (Z.leb_spec 0 l) as [Hs|Hs].
    + apply N.leb_gt in Hr. replace (Z.to_N (- l)) with 0 by lia.
      cbn. lia.
    + apply N.leb_gt in Hr. replace (Z.to_N l) with 0 by lia. cbn. lia.
Qed.

Lemma floorLog2_reached p q :
  0 < p -> 0 < q ->
  q * 2 ^ Z.to_N (JsNumber.floorLog2 p q)
  <= p * 2 ^ Z.to_N (- JsNumber.floorLog2 p q).
Proof.
  intros Hp Hq. unfold JsNumber.floorLog2.
  set (lp := N.log2 p). set (lq := N.log2 q).
  set (l := (Z.of_N lp - Z.of_N lq)%Z).
  destruct (N.log2_spec p Hp) as [Hpl _]. fold lp in Hpl.
  destruct (N.log2_spec q Hq) as [_ Hqu]. fold lq in Hqu.
  match goal with |- context [if ?c then l else _] => destruct c eqn:Hr end.
  - destruct (Z.leb_spec 0 l) as [Hs|Hs].
    + apply N.leb_le in Hr. replace (Z.to_N (- l)) with 0 by lia.
      rewrite N.pow_0_r. lia.
    + apply N.leb_le in Hr. replace (Z.to_N l) with 0 by lia.
      rewrite N.pow_0_r. lia.
  - destruct (Z.leb_spec 0 (l - 1)) as [Hs|Hs].
    + replace (Z.to_N (- (l - 1))) with 0 by lia.
      replace (Z.to_N (l - 1)) with (lp - N.succ lq) by lia.
      assert (E : 2 ^ lp = 2 ^ N.succ lq * 2 ^ (lp - N.succ lq)).
      { rewrite <- N.pow_add_r. f_equal. lia. }
      pose proof (pow2_pos (lp - N.succ lq)). nia.
    + replace (Z.to_N (l - 1)) with 0 by lia.
      replace (Z.to_N (- (l - 1))) with (N.succ lq - lp) by lia.
      assert (E : 2 ^ N.succ lq = 2 ^ lp * 2 ^ (N.succ lq - lp)).
      { rewrite <- N.pow_add_r. f_equal. lia. }
      pose proof (pow2_pos (N.succ lq - lp)). nia.
Qed.

Lemma roundHalfEven_le num den k :
  0 < den -> num < den * k -> JsNumber.roundHalfEven num den <= k.
Proof.
  intros Hden H. unfold JsNumber.roundHalfEven.
  assert (Hq : num / den < k).
  { apply N.Div0.div_lt_upper_bound. lia. }
  destruct (2 * (num mod den) ?= den); [destruct (N.even _)| |]; lia.
Qed.

(** No multiple of [den] is nearer to [num] than the rounded quotient. *)
Lemma roundHalfEven_nearest num den k :
  0 < den ->
  JsNumber.distance num (JsNumber.roundHalfEven num den * den)
  <= JsNumber.distance num (k * den).
Proof.
  intros Hden. unfold JsNumber.roundHalfEven, JsNumber.distance.
  pose proof (N.Div0.div_mod num den) as Hdiv.
  pose proof (N.mod_lt num den ltac:(lia)) as Hr.
  set (q := num / den) in *. set (r := num mod den) in *.
  destruct (N.compare_spec (2 * r) den) as [He|Hl|Hg];
    [destruct (N.even q)| |];
    (destruct (N.le_gt_cases k q) as [Hk|Hk]; nia).
Qed.

(** The significand has at most 53 bits, or is [2^53]. *)
Lemma significand_le p q :
  0 < p -> 0 < q ->
  JsNumber.significand p q (JsNumber.binaryExponent p q) <= 2 ^ 53.
Proof.
  intros Hp Hq.
  set (b := JsNumber.binaryExponent p q).
  assert (Hbelow : JsNumber.below p q (b + 53)).
  { apply (below_mono _ _ (JsNumber.floorLog2 p q + 1)).
    - unfold b, JsNumber.binaryExponent. lia.
    - apply floorLog2_below; assumption. }
  unfold JsNumber.below in Hbelow. unfold JsNumber.significand.
  destruct (Z.leb_spec 0 b) as [Hb|Hb].
  - apply roundHalfEven_le.
    + pose proof (pow2_pos (Z.to_N b)). nia.
    + replace (Z.to_N (- (b + 53))) with 0 in Hbelow by lia.
      rewrite (pow2_to_N_add b 53) in Hbelow by lia.
      change (Z.to_N 53) with 53 in Hbelow.
      rewrite N.pow_0_r in Hbelow. lia.
  - apply roundHalfEven_le; [assumption|].
    destruct (Z.leb_spec 0 (b + 53)) as [Hs|Hs].
    + replace (Z.to_N (- (b + 53))) with 0 in Hbelow by lia.
      rewrite N.pow_0_r, N.mul_1_r in Hbelow.
      assert (E : 2 ^ 53 = 2 ^ Z.to_N (b + 53) * 2 ^ Z.to_N (- b)).
      { rewrite <- N.pow_add_r. f_equal. lia. }
      rewrite E. pose proof (pow2_pos (Z.to_N (- b))). nia.
    + replace (Z.to_N (b + 53)) with 0 in Hbelow by lia.
      rewrite N.pow_0_r, N.mul_1_r in Hbelow.
      assert (E : 2 ^ Z.to_N (- b) = 2 ^ Z.to_N (- (b + 53)) * 2 ^ 53).
      { rewrite <- N.pow_add_r. f_equal. lia. }
      rewrite E. pose proof (pow2_pos 53). nia.
Qed.

(** No [m' * 2^b'] with [m' < 2^53] and [-1074 <= b'] is nearer to [p / q]
    than the significand over its exponent; the two distances are written
    as multiples of [1 / (q * 2^1074)]. *)
Lemma significand_nearest p q m' b' :
  0 < p -> 0 < q -> m' < 2 ^ 53 -> (-1074 <= b')%Z ->
  let b := JsNumber.binaryExponent p q in
  JsNumber.distance (p * 2 ^ 1074)
                    (JsNumber.significand p q b * 2 ^ Z.to_N (b + 1074) * q)
  <= JsNumber.distance (p * 2 ^ 1074) (m' * 2 ^ Z.to_N (b' + 1074) * q).
Proof.
  intros Hp Hq Hm' Hb' b.
  set (m := JsNumber.significand p q b).
  assert (Hb : (-1074 <= b)%Z) by (unfold b, JsNumber.binaryExponent; lia).
  set (u := 2 ^ Z.to_N (b + 1074) * q).
  assert (Hnear : forall k, JsNumber.distance (p * 2 ^ 1074) (m * u)
                            <= JsNumber.distance (p * 2 ^ 1074) (k * u)).
  { intros k. unfold m, JsNumber.significand.
    destruct (Z.leb_spec 0 b) as [Hs|Hs].
    - set (den := q * 2 ^ Z.to_N b).
      assert (Hu : u = den * 2 ^ 1074).
      { unfold u, den. rewrite (pow2_to_N_add b 1074) by lia.
        change (Z.to_N 1074) with 1074. lia. }
      rewrite Hu, !N.mul_assoc, !distance_scale.
      apply N.mul_le_mono_r, roundHalfEven_nearest.
      unfold den. pose proof (pow2_pos (Z.to_N b)). nia.
    - set (c := 2 ^ Z.to_N (b + 1074)).
      set (num := p * 2 ^ Z.to_N (- b)).
      assert (Hc : p * 2 ^ 1074 = num * c).
      { unfold num, c. rewrite <- N.mul_assoc, <- N.pow_add_r.
        do 2 f_equal. lia. }
      assert (Hu : u = q * c) by (unfold u, c; lia).
      rewrite Hc, Hu, !N.mul_assoc, !distance_scale.
      apply N.mul_le_mono_r, roundHalfEven_nearest. assumption. }
  replace (m * 2 ^ Z.to_N (b + 1074) * q) with (m * u) by (unfold u; lia).
  destruct (Z.le_gt_cases b b') as [Hle|Hgt].
  - replace (m' * 2 ^ Z.to_N (b' + 1074) * q)
      with (m' * 2 ^ Z.to_N (b' - b) * u); [apply Hnear|].
    unfold u. replace (b' + 1074)%Z with ((b' - b) + (b + 1074))%Z by lia.
    rewrite (pow2_to_N_add (b' - b) (b + 1074)) by lia.
    rewrite !N.mul_assoc. reflexivity.
  - assert (Hfl : (JsNumber.floorLog2 p q = b + 52)%Z)
      by (unfold b, JsNumber.binaryExponent in *; lia).
    assert (Hlow : 2 ^ 52 * u <= p * 2 ^ 1074).
    { pose proof (floorLog2_reached p q Hp Hq) as H. rewrite Hfl in H.
      unfold u.
      destruct (Z.leb_spec 0 (b + 52)) as [Hs|Hs].
      - replace (Z.to_N (- (b + 52))) with 0 in H by lia.
        rewrite N.pow_0_r, N.mul_1_r in H.
        assert (E : 2 ^ 52 * 2 ^ Z.to_N (b + 1074) = 2 ^ Z.to_N (b + 52) * 2 ^ 1074).
        { rewrite <- !N.pow_add_r. f_equal. lia. }
        pose proof (pow2_pos 1074). nia.
      - replace (Z.to_N (b + 52)) with 0 in H by lia.
        rewrite N.pow_0_r, N.mul_1_r in H.
        assert (E : 2 ^ 1074
                    = 2 ^ Z.to_N (- (b + 52)) * (2 ^ 52 * 2 ^ Z.to_N (b + 1074))).
        { rewrite <- !N.pow_add_r. f_equal. lia. }
        rewrite E. pose proof (pow2_pos 52).
        pose proof (pow2_pos (Z.to_N (b + 1074))). nia. }
    assert (Hy : m' * 2 ^ Z.to_N (b' + 1074) * q <= 2 ^ 52 * u).
    { unfold u.
      assert (E : 2 ^ Z.to_N (b + 1074)
                  = 2 ^ (Z.to_N (b + 1074) - Z.to_N (b' + 1 + 1074))
                    * (2 * 2 ^ Z.to_N (b' + 1074))).
      { rewrite <- N.pow_succ_r', <- N.pow_add_r. f_equal. lia. }
      rewrite E.
      pose proof (pow2_pos (Z.to_N (b + 1074) - Z.to_N (b' + 1 + 1074))).
      pose proof (pow2_pos (Z.to_N (b' + 1074))).
      change (2 ^ 53) with (2 ^ 52 * 2) in Hm'.
      pose proof (pow2_pos 52). nia. }
    etransitivity; [apply (Hnear (2 ^ 52))|].
    unfold JsNumber.distance. lia.
Qed.

Lemma stripZeros_value fuel d e d' e' :
  JsNumber.stripZeros fuel d e = (d', e') ->
  (e <= e' <= e + Z.of_nat fuel)%Z /\ d = d' * 10 ^ Z.to_N (e' - e).
Proof.
  revert d e. induction fuel as [|fuel IH]; intros d e; cbn [JsNumber.stripZeros].
  - intros [= <- <-]. split; [lia|]. replace (Z.to_N (e - e)) with 0 by lia.
    cbn. lia.
  - destruct (N.eqb_spec (d mod 10) 0) as [Hz|Hz].
    + intros H. destruct (IH _ _ H) as [Hb Hv]. split; [lia|].
      replace (Z.to_N (e' - e)) with (N.succ (Z.to_N (e' - (e + 1)))) by lia.
      rewrite N.pow_succ_r'.
      pose proof (N.Div0.div_mod d 10). nia.
    + intros [= <- <-]. split; [lia|]. replace (Z.to_N (e - e)) with 0 by lia.
      cbn. lia.
Qed.

(** The decimal that [roundToBinary64] writes for a significand [m] over
    [2^b], [b < 0], has the value [m * 2^b]. *)
Lemma normalize_binary m b d' e' :
  (b < 0)%Z ->
  JsNumber.normalize (m * 5 ^ Z.to_N (- b)) b = (d', e') ->
  d' * 10 ^ Z.to_N e' * 2 ^ Z.to_N (- b) = m * 10 ^ Z.to_N (- e').
Proof.
  intros Hb En. unfold JsNumber.normalize in En.
  assert (P5 : 0 < 5 ^ Z.to_N (- b))
    by (apply N.neq_0_lt_0, N.pow_nonzero; discriminate).
  destruct (N.eqb_spec (m * 5 ^ Z.to_N (- b)) 0) as [Hz|Hz].
  - injection En as <- <-. assert (m = 0) by nia. subst m. lia.
  - destruct (Z.leb_spec 0 b) as [|_]; [lia|].
    apply stripZeros_value in En as [Hb' Hv].
    replace (Z.to_N e') with 0 by lia. rewrite N.pow_0_r, N.mul_1_r.
    assert (E10 : 10 ^ Z.to_N (- b) = 10 ^ Z.to_N (e' - b) * 10 ^ Z.to_N (- e')).
    { rewrite <- N.pow_add_r. f_equal. lia. }
    rewrite pow10_split in E10.
    assert (P10 : 0 < 10 ^ Z.to_N (e' - b))
      by (apply N.neq_0_lt_0, N.pow_nonzero; discriminate).
    apply (N.mul_cancel_r _ _ (5 ^ Z.to_N (- b) * 10 ^ Z.to_N (e' - b))); [lia|].
    nia.
Qed.

(** What [roundToBinary64] returns is a binary64 value. *)
Lemma roundToBinary64_isBinary64 negative d e :
  JsNumber.isBinary64 (JsNumber.roundToBinary64 negative d e).
Proof.
  unfold JsNumber.roundToBinary64.
  destruct (N.eqb_spec d 0) as [Hd|Hd].
  { exists 0, 0%Z. cbn. repeat split; lia. }
  set (p := if (0 <=? e)%Z then d * 10 ^ Z.to_N e else d).
  set (q := if (0 <=? e)%Z then 1 else 10 ^ Z.to_N (- e)).
  assert (Hp : 0 < p).
  { unfold p. destruct (0 <=? e)%Z; [|lia].
    assert (0 < 10 ^ Z.to_N e) by (apply N.neq_0_lt_0, N.pow_nonzero; discriminate).
    nia. }
  assert (Hq : 0 < q).
  { unfold q. destruct (0 <=? e)%Z; [lia|].
    apply N.neq_0_lt_0, N.pow_nonzero; discriminate. }
  pose proof (significand_le p q Hp Hq) as Hm.
  set (b := JsNumber.binaryExponent p q) in *.
  set (m := JsNumber.significand p q b) in *.
  assert (Hbl : (-1074 <= b)%Z) by (unfold b, JsNumber.binaryExponent; lia).
  cbv zeta.
  destruct (Z.leb_spec 0 b) as [Hb|Hb].
  - destruct (N.leb_spec (2 ^ 1024) (m * 2 ^ Z.to_N b)) as [Hv|Hv]; [exact I|].
    cbn [JsNumber.isBinary64]. change (Z.to_N 0) with 0. change (Z.to_N (- 0)) with 0.
    rewrite N.pow_0_r, !N.mul_1_r.
    destruct (Z.leb_spec 971 b) as [Hbig|Hsmall].
    + exists (m * 2 ^ (Z.to_N b - 971)), 971%Z.
      assert (E : 2 ^ Z.to_N b = 2 ^ (Z.to_N b - 971) * 2 ^ 971).
      { rewrite <- N.pow_add_r. f_equal. lia. }
      split; [|split; [lia|]].
      * rewrite E in Hv.
        change (2 ^ 1024) with (2 ^ 53 * 2 ^ 971) in Hv.
        pose proof (pow2_pos 971). nia.
      * change (Z.to_N (- 971)) with 0. change (Z.to_N 971) with 971.
        rewrite N.pow_0_r, E. lia.
    + destruct (N.eq_dec m (2 ^ 53)) as [Hmax|Hlt].
      * exists (2 ^ 52), (b + 1)%Z.
        split; [reflexivity|]. split; [lia|].
        replace (Z.to_N (- (b + 1))) with 0 by lia.
        rewrite (pow2_to_N_add b 1) by lia.
        rewrite Hmax. change (2 ^ Z.to_N 1) with 2.
        change (2 ^ 53) with (2 ^ 52 * 2). rewrite N.pow_0_r. lia.
      * exists m, b. split; [lia|]. split; [lia|].
        replace (Z.to_N (- b)) with 0 by lia. rewrite N.pow_0_r. lia.
  - destruct (JsNumber.normalize (m * 5 ^ Z.to_N (- b)) b) as [d' e'] eqn:En.
    cbn [JsNumber.isBinary64].
    pose proof (normalize_binary _ _ _ _ Hb En) as Hval.
    destruct (N.eq_dec m (2 ^ 53)) as [Hmax|Hlt].
    + exists (2 ^ 52), (b + 1)%Z.
      split; [reflexivity|]. split; [lia|].
      replace (Z.to_N (b + 1)) with 0 by lia. rewrite N.pow_0_r, N.mul_1_r.
      assert (E : 2 ^ Z.to_N (- b) = 2 ^ Z.to_N (- (b + 1)) * 2).
      { change 2 with (2 ^ 1) at 3. rewrite <- N.pow_add_r. f_equal. lia. }
      rewrite E, Hmax in Hval. change (2 ^ 53) with (2 ^ 52 * 2) in Hval. nia.
    + exists m, b. split; [lia|]. split; [lia|].
      replace (Z.to_N b) with 0 by lia. rewrite N.pow_0_r, N.mul_1_r. exact Hval.
Qed.

End Binary64.

Lemma mkDecimal_not_NaN negative ip fp e :
  isNaN (JsNumber.mkDecimal negative ip fp e) = false.
Proof.
  unfold JsNumber.mkDecimal, JsNumber.roundToBinary64.
  repeat match goal with
         | |- context [if ?c then _ else _] => destruct c
         | |- context [let (_, _) := ?p in _] => destruct p
         end; reflexivity.
Qed.

(** The value of a StrDecimalLiteral is never [NaN]. *)
Lemma strDecimalLiteral_not_NaN s x :
  JsNumber.strDecimalLiteral s = Some x -> isNaN x = false.
Proof.
  assert (Hopt : forall negative ip fp o,
             option_map (JsNumber.mkDecimal negative ip fp) o = Some x ->
             isNaN x = false).
  { intros negative ip fp [e|]; cbn; [|discriminate].
    intros [= <-]. apply mkDecimal_not_NaN. }
  assert (Hu : forall negative t,
             JsNumber.strUnsignedDecimalLiteral negative t = Some x ->
             isNaN x = false).
  { intros negative t. unfold JsNumber.strUnsignedDecimalLiteral.
    destruct (String.eqb t "Infinity"); [intros [= <-]; reflexivity|].
    destruct (JsNumber.spanDigits t) as [ip r].
    destruct r as [|c r'].
    - destruct (JsString.truthy ip); [apply Hopt|discriminate].
    - destruct (Ascii.eqb c ".") eqn:Ec.
      + apply Ascii.eqb_eq in Ec. subst c.
        destruct (JsNumber.spanDigits r') as [fp r''].
        destruct (negb (JsString.truthy ip) && negb (JsString.truthy fp));
          [discriminate|apply Hopt].
      + assert (Hgen :
                  (if JsString.truthy ip
                   then option_map (JsNumber.mkDecimal negative ip "")
                                   (JsNumber.optExponentPart (String c r'))
                   else None) = Some x -> isNaN x = false).
        { destruct (JsString.truthy ip); [apply Hopt|discriminate]. }
        destruct c as [[] [] [] [] [] [] [] []]; try exact Hgen;
          cbn in Ec; discriminate. }
  unfold JsNumber.strDecimalLiteral.
  destruct s as [|c t]; [apply Hu|].
  destruct c as [[] [] [] [] [] [] [] []]; apply Hu.
Qed.

(** The value of a StrDecimalLiteral is an infinity or [mkDecimal] of
    its parts. *)
Lemma strDecimalLiteral_value (P : number -> Prop) :
  (forall negative, P (Infinity negative)) ->
  (forall negative ip fp e, P (JsNumber.mkDecimal negative ip fp e)) ->
  forall s x, JsNumber.strDecimalLiteral s = Some x -> P x.
Proof.
  intros Hinf Hdec s x.
  assert (Hopt : forall negative ip fp o,
             option_map (JsNumber.mkDecimal negative ip fp) o = Some x -> P x).
  { intros negative ip fp [e|]; cbn; [|discriminate].
    intros [= <-]. apply Hdec. }
  assert (Hu : forall negative t,
             JsNumber.strUnsignedDecimalLiteral negative t = Some x -> P x).
  { intros negative t. unfold JsNumber.strUnsignedDecimalLiteral.
    destruct (String.eqb t "Infinity"); [intros [= <-]; apply Hinf|].
    destruct (JsNumber.spanDigits t) as [ip r].
    destruct r as [|c r'].
    - destruct (JsString.truthy ip); [apply Hopt|discriminate].
    - destruct (Ascii.eqb c ".") eqn:Ec.
      + apply Ascii.eqb_eq in Ec. subst c.
        destruct (JsNumber.spanDigits r') as [fp r''].
        destruct (negb (JsString.truthy ip) && negb (JsString.truthy fp));
          [discriminate|apply Hopt].
      + assert (Hgen :
                  (if JsString.truthy ip
                   then option_map (JsNumber.mkDecimal negative ip "")
                                   (JsNumber.optExponentPart (String c r'))
                   else None) = Some x -> P x).
        { destruct (JsString.truthy ip); [apply Hopt|discriminate]. }
        destruct c as [[] [] [] [] [] [] [] []]; try exact Hgen;
          cbn in Ec; discriminate. }
  unfold JsNumber.strDecimalLiteral.
  destruct s as [|c t]; [apply Hu|].
  destruct c as [[] [] [] [] [] [] [] []]; apply Hu.
Qed.

(** The value of a StrDecimalLiteral is a binary64 value. *)
Lemma strDecimalLiteral_isBinary64 s x :
  JsNumber.strDecimalLiteral s = Some x -> JsNumber.isBinary64 x.
Proof.
  apply strDecimalLiteral_value.
  - intros negative. exact I.
  - intros negative ip fp e. apply roundToBinary64_isBinary64.
Qed.

(** [parseFloat] returns binary64 values only. *)
Lemma parseFloat_isBinary64 s : JsNumber.isBinary64 (JsNumber.parseFloat s).
Proof.
  unfold JsNumber.parseFloat.
  destruct (JsNumber.longestPrefix _ _) as [p|]; [|exact I].
  destruct (JsNumber.strDecimalLiteral p) as [x|] eqn:Ex; [|exact I].
  exact (strDecimalLiteral_isBinary64 _ _ Ex).
Qed.

(** C5, as the code has it: [set] on the number value throws exactly when
    no prefix of the input, its leading white space dropped, is a decimal
    literal, and the error carries the raw input and no flag name;
    otherwise it stores the value of the longest such prefix, which
    [JsNumber.strDecimalLiteral] gives rounded to binary64, and that value
    is a binary64 value.  In the
    registry of the test suite, [--port not-a-number] fails with a parse
    error that names [port] and carries [not-a-number]. *)
Theorem number_set_spec (current : number) (stringValue : string) :
  match Value.set (NumberValue current) stringValue with
  | Throw e =>
      e = ParseError (new_FlagParseError "invalid number" None (Some stringValue))
      /\ forall p, JsString.startsWith (JsString.trimStart stringValue) p = true ->
                   JsNumber.isStrDecimalLiteral p = false
  | Normal holder =>
      exists p x,
        JsString.startsWith (JsString.trimStart stringValue) p = true
        /\ JsNumber.strDecimalLiteral p = Some x
        /\ (forall q, JsString.startsWith (JsString.trimStart stringValue) q = true ->
                      JsNumber.isStrDecimalLiteral q = true ->
                      String.length q <= String.length p)
        /\ holder = NumberValue x
        /\ JsNumber.isBinary64 x
  end
  /\ exists pe,
      snd (parse testFlagSet (Some ["--port"; "not-a-number"])) = Throw (ParseError pe)
      /\ flagName pe = Some "port"
      /\ offendingValue pe = Some "not-a-number".
Proof.
  split.
  - cbn [Value.set]. unfold JsNumber.parseFloat.
    destruct (JsNumber.longestPrefix _ _) as [p|] eqn:E.
    + destruct (longestPrefix_Some _ _ _ E) as (Hpre & HP & Hmax).
      unfold JsNumber.isStrDecimalLiteral in HP.
      destruct (JsNumber.strDecimalLiteral p) as [x|] eqn:Ex; [|discriminate].
      rewrite (strDecimalLiteral_not_NaN _ _ Ex).
      exists p, x.
      pose proof (strDecimalLiteral_isBinary64 _ _ Ex).
      auto 6.
    + cbn. split; [reflexivity|].
      apply longestPrefix_None. exact E.
  - eexists. split; [vm_compute; reflexivity|]. split; reflexivity.
Qed.

(** C5, counterexample: [12abc] is not a decimal literal, and [set]
    accepts it and stores [12]. *)
Lemma number_set_accepts_literal_prefix :
  JsNumber.isStrDecimalLiteral "12abc" = false
  /\ Value.set (NumberValue (Decimal false 0 0)) "12abc"
     = Normal (NumberValue (Decimal false 12 0)).
Proof.
  split; reflexivity.
Qed.

(** Literals that no binary64 value equals: the value stored is the
    nearest one, an infinity beyond the largest, a zero below the
    smallest. *)
Example parseFloat_rounds_to_binary64 :
  JsNumber.parseFloat "9007199254740993" = Decimal false 9007199254740992 0
  /\ JsNumber.parseFloat "9007199254740995" = Decimal false 9007199254740996 0
  /\ JsNumber.parseFloat "1e400" = Infinity false
  /\ JsNumber.parseFloat "-1e400" = Infinity true
  /\ JsNumber.parseFloat "1e-400" = Decimal false 0 0
  /\ JsNumber.parseFloat "-1e-400" = Decimal true 0 0
  /\ JsNumber.parseFloat "1.7976931348623159e308" = Infinity false
  /\ JsNumber.parseFloat "0.5" = Decimal false 5 (-1)
  /\ JsNumber.parseFloat "0.1"
     = Decimal false 1000000000000000055511151231257827021181583404541015625 (-55)
  /\ Value.set (NumberValue (Decimal false 0 0)) "9007199254740993"
     = Normal (NumberValue (Decimal false 9007199254740992 0)).
Proof.
  repeat split; vm_compute; reflexivity.
Qed.

(** [String(x)] writes the fewest digits that give [x] back. *)
Example toString_shortest_digits :
  JsNumber.toString (JsNumber.parseFloat "0.1") = "0.1"
  /\ JsNumber.toString (JsNumber.parseFloat "123.45") = "123.45"
  /\ JsNumber.toString (JsNumber.parseFloat "0.30000000000000004")
     = "0.30000000000000004"
  /\ JsNumber.toString (JsNumber.parseFloat "9007199254740993") = "9007199254740992"
  /\ JsNumber.toString (JsNumber.parseFloat "1e21") = "1e+21"
  /\ JsNumber.toString (JsNumber.parseFloat "123456789012345678901234567890")
     = "1.2345678901234568e+29"
  /\ JsNumber.toString (JsNumber.parseFloat "1e-7") = "1e-7"
  /\ JsNumber.toString (JsNumber.parseFloat "4e-324") = "5e-324"
  /\ JsNumber.toString (JsNumber.parseFloat "-8080") = "-8080"
  /\ JsNumber.toString (JsNumber.parseFloat "-0") = "0".
Proof.
  repeat split; vm_compute; reflexivity.
Qed.

(** ** Reset to the default *)

(** The list value goes back to the sequence it was built with, whatever
    was appended since. *)
Lemma clearAndReset_string_list current initialDefault stringValue :
  Value._clearAndReset (StringListValue current initialDefault) stringValue
  = Normal (StringListValue initialDefault initialDefault).
Proof. reflexivity. Qed.

(** The boolean value goes back to the default that [asString] rendered. *)
Lemma clearAndReset_boolean current defaultValue :
  Value._clearAndReset (BooleanValue current)
                       (Value.asString (BooleanValue defaultValue))
  = Normal (BooleanValue defaultValue).
Proof. destruct defaultValue; reflexivity. Qed.

(** The string value goes back to a default that is not empty. *)
Lemma clearAndReset_string current c defaultRest :
  Value._clearAndReset (StringValue current)
                       (Value.asString (StringValue (String c defaultRest)))
  = Normal (StringValue (String c defaultRest)).
Proof. reflexivity. Qed.

(** C1 at its failing input: a string flag built with the default [""]
    and then set to a non-empty string keeps that string through
    [_resetToDefault]; only [isSet] is cleared. *)
Theorem resetToDefault_keeps_string_when_default_is_empty
        (name description : string) (c : ascii) (s : string) :
  let flag := mkFlag name description None (StringValue "") "" false in
  let flag1 := mkFlag name description None (StringValue (String c s)) "" true in
  new_Flag name description None (StringValue "") = Normal flag
  /\ FlagOps._setValueFromString flag (String c s) = Normal flag1
  /\ FlagOps._resetToDefault flag1
     = Normal (mkFlag name description None (StringValue (String c s)) "" false)
  /\ FlagOps.value flag <> FlagOps.value flag1.
Proof.
  repeat split. discriminate.
Qed.

(** The same guard lets a number flag whose default is [NaN] throw from
    [_resetToDefault]: its default string [NaN] is handed to [set]. *)
Example resetToDefault_throws_when_default_is_NaN :
  exists flag,
    new_Flag "ratio" "d" None (NumberValue NaN) = Normal flag
    /\ FlagOps._resetToDefault flag
       = Throw (ParseError (new_FlagParseError "invalid number" None (Some "NaN"))).
Proof.
  eexists. split; reflexivity.
Qed.

(** C2 at its failing input: [name] is a string flag declared without a
    default.  The first parse sets it to [x]; the second parse, of no
    token at all, completes and [name] is still [x]. *)
Theorem second_parse_keeps_string_when_default_is_empty :
  let first := parse nameFlagSet (Some ["--name"; "x"]) in
  let second := parse (fst first) (Some []) in
  valueOf nameFlagSet "name" = Some (VString "")
  /\ snd first = Normal tt
  /\ valueOf (fst first) "name" = Some (VString "x")
  /\ snd second = Normal tt
  /\ valueOf (fst second) "name" = Some (VString "x").
Proof.
  repeat split.
Qed.

(** The test "should reset values before a new parse if called multiple
    times": with non-empty defaults the second parse starts from them. *)
Example second_parse_resets_test_suite :
  let first := parse testFlagSet (Some ["--verbose"; "--config"; "first.json"]) in
  let second := parse (fst first) (Some ["--config"; "second.json"]) in
  valueOf (fst first) "verbose" = Some (VBoolean true)
  /\ valueOf (fst first) "config" = Some (VString "first.json")
  /\ valueOf (fst second) "verbose" = Some (VBoolean false)
  /\ valueOf (fst second) "config" = Some (VString "second.json").
Proof.
  repeat split.
Qed.

(** ** Help interception *)

(** C10, as the code has it: a token that starts with [-] and whose
    identifier is [h] or [help], with or without [=value], raises the help
    signal before any lookup, in every registry, and no flag changes; so no
    flag is assigned through the identifier [h] or [help]. *)
Theorem help_intercepted_before_resolution fs arg rest :
  _processingArgs fs = arg :: rest ->
  JsString.startsWith arg "-" = true ->
  isHelp (fst (splitToken arg)) = true ->
  _parseOne fs = (withProcessingArgs fs rest, Throw HelpRequestError)
  /\ parseLoop fs = (withProcessingArgs fs rest, Throw HelpRequestError)
  /\ flags (fst (_parseOne fs)) = flags fs.
Proof.
  intros Hq Hdash Hhelp.
  assert (Hstep : _parseOne fs = (withProcessingArgs fs rest, Throw HelpRequestError)).
  { unfold _parseOne. rewrite Hq.
    destruct (String.eqb arg "--") eqn:Et.
    { apply String.eqb_eq in Et. subst arg. discriminate Hhelp. }
    destruct (String.eqb arg "-") eqn:El.
    { apply String.eqb_eq in El. subst arg. discriminate Hhelp. }
    rewrite Hdash. cbn [negb orb].
    destruct (splitToken arg) as [ident inline]. cbn [fst] in Hhelp.
    unfold isHelp in Hhelp. rewrite Hhelp.
    apply orb_prop in Hhelp as [H|H]; apply String.eqb_eq in H; subst ident;
      reflexivity. }
  split; [exact Hstep|]. split.
  - rewrite parseLoop_step, Hq, Hstep. reflexivity.
  - rewrite Hstep. reflexivity.
Qed.

(** [-h=true] where [h] is a declared alias. *)
Lemma help_intercepted_before_resolution_witness :
  _parseOne (withProcessingArgs aliasHFlagSet ["-h=true"; "--verbose"])
  = (withProcessingArgs aliasHFlagSet ["--verbose"], Throw HelpRequestError).
Proof.
  exact (proj1 (help_intercepted_before_resolution
                  (withProcessingArgs aliasHFlagSet ["-h=true"; "--verbose"])
                  "-h=true" ["--verbose"] eq_refl eq_refl eq_refl)).
Defined.

(** C10, counterexample: the flag [verbose] declared with alias [h] is
    assigned by [parse] through its long name. *)
Lemma flag_with_alias_h_is_assigned :
  JsMap.get (aliases aliasHFlagSet) "h" = Some "verbose"
  /\ valueOf aliasHFlagSet "verbose" = Some (VBoolean false)
  /\ parse aliasHFlagSet (Some ["--verbose"])
     = (withIsParsed
          (assigned aliasHFlagSet "verbose"
             (mkFlag "verbose" "Verbose output" (Some "h") (BooleanValue true)
                     "false" true) [])
          true,
        Normal tt).
Proof.
  repeat split.
Qed.

(** A flag named [help] is out of reach of [--help], and is assigned
    through its alias. *)
Example flag_named_help_is_assigned_by_alias :
  snd (parse helpNamedFlagSet (Some ["--help=true"])) = Throw HelpRequestError
  /\ valueOf (fst (parse helpNamedFlagSet (Some ["--help=true"]))) "help"
     = Some (VBoolean false)
  /\ snd (parse helpNamedFlagSet (Some ["-x"])) = Normal tt
  /\ valueOf (fst (parse helpNamedFlagSet (Some ["-x"]))) "help"
     = Some (VBoolean true).
Proof.
  repeat split.
Qed.

(** ** Abort on the first error *)

(** C7: when the loop of [parse] has processed some flag tokens and the
    next step throws a parse error or the help signal, [parse] throws that
    very error, and the registry it leaves is the one the earlier tokens
    produced, with [isParsed] set and the queue emptied: the flags assigned
    so far keep their values and no token after the failing one is looked
    at. *)
Theorem parse_aborts_on_first_error fs argv fs0 fs1 fs2 e :
  (if _isParsed fs then reset fs else (fs, Normal tt)) = (fs0, Normal tt) ->
  processed (withProcessingArgs fs0 (orDefault argv (argProvider fs0))) fs1 ->
  _processingArgs fs1 <> [] ->
  _parseOne fs1 = (fs2, Throw e) ->
  parse fs argv = (withProcessingArgs (withIsParsed fs1 true) [], Throw e)
  /\ flags (fst (parse fs argv)) = flags fs1.
Proof.
  intros Hstart Hproc Hq Hstep.
  assert (Hparse : parse fs argv
                   = (withProcessingArgs (withIsParsed fs1 true) [], Throw e)).
  { unfold parse. rewrite Hstart.
    rewrite (parseLoop_processed _ _ Hproc), parseLoop_step, Hstep.
    destruct (_processingArgs fs1) as [|arg rest]; [congruence|].
    destruct (_parseOne_throw _ _ _ Hstep) as [queue ->]. reflexivity. }
  rewrite Hparse. split; reflexivity.
Qed.

(** [--verbose --port x --config late.json]: [verbose] keeps its new value
    and [config], behind the failing [--port x], keeps its default. *)
Lemma parse_aborts_on_first_error_witness :
  let argv := ["--verbose"; "--port"; "x"; "--config"; "late.json"] in
  valueOf (fst (parse testFlagSet (Some argv))) "verbose" = Some (VBoolean true)
  /\ valueOf (fst (parse testFlagSet (Some argv))) "config"
     = Some (VString "default.json").
Proof.
  pose (argv := ["--verbose"; "--port"; "x"; "--config"; "late.json"]).
  pose (fs1 := assigned testFlagSet "verbose"
                 (mkFlag "verbose" "Verbose output" (Some "v") (BooleanValue true)
                         "false" true)
                 ["--port"; "x"; "--config"; "late.json"]).
  assert (Hproc : processed (withProcessingArgs testFlagSet argv) fs1).
  { eapply processed_step; [reflexivity|apply processed_refl]. }
  assert (Hq : _processingArgs fs1 <> []) by discriminate.
  destruct (parse_aborts_on_first_error testFlagSet (Some argv) testFlagSet fs1
              (fst (_parseOne fs1)) (rethrow
                 (mkFlag "port" "Port number" (Some "p")
                         (NumberValue (Decimal false 0 0)) "0" false)
                 None
                 (ParseError (new_FlagParseError "invalid number" None (Some "x"))))
              eq_refl Hproc Hq eq_refl) as [_ Hflags].
  cbv zeta. unfold valueOf. fold argv. rewrite Hflags. split; reflexivity.
Defined.

(** ** Token sequences that parse alike *)

Lemma _parseOne_head fs arg rest :
  _parseOne (withProcessingArgs fs (arg :: rest))
  = finishStep fs arg rest (parseHead fs arg).
Proof.
  unfold _parseOne, parseHead. cbn [_processingArgs withProcessingArgs].
  destruct (String.eqb arg "--"); [reflexivity|].
  destruct (negb (JsString.startsWith arg "-") || String.eqb arg "-");
    [reflexivity|].
  destruct (splitToken arg) as [ident inline].
  destruct ((String.length ident =? 0)%nat || JsString.startsWith ident "-");
    [reflexivity|].
  destruct (String.eqb ident "h" || String.eqb ident "help"); [reflexivity|].
  change (resolve (withProcessingArgs (withProcessingArgs fs (arg :: rest)) rest) ident)
    with (resolve fs ident).
  destruct (resolve fs ident) as [flag|]; reflexivity.
Qed.

Lemma acquireAndApply_alike flag inline q1 q2 :
  alike q1 q2 ->
  (exists c, acquireAndApply flag inline q1 = (q1, c)
             /\ acquireAndApply flag inline q2 = (q2, c))
  \/ (exists next t1 t2 c,
         q1 = next :: t1 /\ q2 = next :: t2
         /\ JsString.startsWith next "-" = false
         /\ acquireAndApply flag inline q1 = (t1, c)
         /\ acquireAndApply flag inline q2 = (t2, c)).
Proof.
  intros Halike. unfold acquireAndApply.
  destruct (FlagOps.expectsExplicitValue flag); [|destruct inline; eauto].
  destruct inline as [v|]; [eauto|].
  destruct q1 as [|a1 t1], q2 as [|a2 t2];
    cbv beta iota delta [alike] in Halike; try contradiction; [eauto|].
  destruct Halike as [<-|[H1 H2]].
  - destruct (JsString.startsWith a1 "-") eqn:E; [eauto|].
    right. exists a1, t1, t2. eauto 6.
  - rewrite H1, H2. eauto.
Qed.

Lemma JsMap_set_keys {V : Type} (m : list (string * V)) k v v' :
  JsMap.get m k = Some v ->
  map fst (JsMap.set m k v') = map fst m.
Proof.
  induction m as [|[k0 v0] m IH]; cbn; [discriminate|].
  destruct (String.eqb k0 k) eqn:E.
  - apply String.eqb_eq in E. subst k0. reflexivity.
  - intros H. cbn. rewrite (IH H). reflexivity.
Qed.

Lemma resetAll_keys m :
  map fst (fst (resetAll m)) = map fst m.
Proof.
  induction m as [|[k f] m IH]; cbn; [reflexivity|].
  destruct (FlagOps._resetToDefault f); [|reflexivity].
  destruct (resetAll m) as [m' r]. cbn in *. rewrite IH. reflexivity.
Qed.

Lemma parseHead_resolved fs arg flag key inline :
  parseHead fs arg = HResolved flag key inline ->
  String.eqb arg "--" = false /\ JsMap.get (flags fs) key = Some flag.
Proof.
  unfold parseHead.
  destruct (String.eqb arg "--"); [discriminate|].
  destruct (negb (JsString.startsWith arg "-") || String.eqb arg "-");
    [discriminate|].
  destruct (splitToken arg) as [ident inl].
  destruct ((String.length ident =? 0)%nat || JsString.startsWith ident "-");
    [discriminate|].
  destruct (String.eqb ident "h" || String.eqb ident "help"); [discriminate|].
  destruct (resolve fs ident) as [f|] eqn:E; [|discriminate].
  intros [= -> <- _]. split; [reflexivity|exact E].
Qed.

Lemma not_dash_not_terminator next :
  JsString.startsWith next "-" = false -> String.eqb next "--" = false.
Proof.
  intros H. destruct (String.eqb next "--") eqn:E; [|reflexivity].
  apply String.eqb_eq in E. subst next. discriminate H.
Qed.

Lemma finish_cleared s1 s2 :
  withProcessingArgs s1 [] = withProcessingArgs s2 [] ->
  withProcessingArgs (withIsParsed s1 true) []
  = withProcessingArgs (withIsParsed s2 true) [].
Proof.
  destruct s1, s2. cbn. intros H. inversion H. reflexivity.
Qed.

(** Two token sequences related by [R] drive the loop of [parse] through
    the same steps when [R] relates only queues that are [alike], whose
    leading tokens [_parseOne] decides alike, and is kept by dropping a
    leading token other than the terminator.  [Inv] is what the registry
    must satisfy for this; it may depend on the aliases and on the names
    of the declared flags only. *)
Section Simulation.
Variable R : list string -> list string -> Prop.
Variable Inv : FlagSet -> Prop.
Hypothesis R_alike : forall q1 q2, R q1 q2 -> alike q1 q2.
Hypothesis R_head : forall fs a1 a2 q1 q2,
    Inv fs -> R (a1 :: q1) (a2 :: q2) -> parseHead fs a1 = parseHead fs a2.
Hypothesis R_tail : forall a1 a2 q1 q2,
    R (a1 :: q1) (a2 :: q2) -> String.eqb a1 "--" = false -> R q1 q2.
Hypothesis Inv_keys : forall fs fs',
    aliases fs' = aliases fs -> map fst (flags fs') = map fst (flags fs) ->
    Inv fs -> Inv fs'.

Lemma parseLoop_simulation n :
  forall fs q1 q2,
    length q1 <= n -> Inv fs -> R q1 q2 ->
    cleared (parseLoop (withProcessingArgs fs q1))
    = cleared (parseLoop (withProcessingArgs fs q2)).
Proof.
  induction n as [|n IH]; intros fs q1 q2 Hlen HInv HR;
    pose proof (R_alike _ _ HR) as Halike;
    destruct q1 as [|a1 t1], q2 as [|a2 t2];
      cbv beta iota delta [alike] in Halike; cbn [length] in Hlen;
      try contradiction; try lia;
      try (rewrite !parseLoop_step; reflexivity).
  rewrite !parseLoop_step. cbn [_processingArgs withProcessingArgs].
  rewrite !_parseOne_head, (R_head fs a1 a2 t1 t2 HInv HR).
  destruct (parseHead fs a2) as [| |e|flag key inline] eqn:Hhead;
    try reflexivity.
  rewrite <- (R_head fs a1 a2 t1 t2 HInv HR) in Hhead.
  destruct (parseHead_resolved _ _ _ _ _ Hhead) as [Hterm Hget].
  pose proof (R_tail _ _ _ _ HR Hterm) as HRt.
  assert (HInv' : forall flag',
             Inv (withFlags fs (JsMap.set (flags fs) key flag'))).
  { intros flag'. apply (Inv_keys fs); [reflexivity| |exact HInv].
    cbn. apply (JsMap_set_keys _ _ _ _ Hget). }
  cbn [finishStep].
  destruct (acquireAndApply_alike flag inline t1 t2 (R_alike _ _ HRt))
    as [(c & -> & ->)|(next & u1 & u2 & c & -> & -> & Hnext & -> & ->)].
  - destruct c as [flag'|e]; [|reflexivity].
    apply IH; [lia|apply HInv'|exact HRt].
  - destruct c as [flag'|e]; [|reflexivity].
    apply IH; [cbn in Hlen; lia|apply HInv'|].
    exact (R_tail _ _ _ _ HRt (not_dash_not_terminator _ Hnext)).
Qed.

Lemma parse_simulation fs argv1 argv2 :
  Inv fs -> R argv1 argv2 ->
  parse fs (Some argv1) = parse fs (Some argv2).
Proof.
  intros HInv HR. unfold parse.
  assert (Hloop : forall fs0, Inv fs0 ->
             match parseLoop (withProcessingArgs fs0 argv1) with
             | (fs2, Throw e) =>
                 (withProcessingArgs (withIsParsed fs2 true) [], @Throw unit e)
             | (fs2, Normal _) =>
                 (withProcessingArgs (withIsParsed fs2 true) [], Normal tt)
             end
             = match parseLoop (withProcessingArgs fs0 argv2) with
               | (fs2, Throw e) =>
                   (withProcessingArgs (withIsParsed fs2 true) [], Throw e)
               | (fs2, Normal _) =>
                   (withProcessingArgs (withIsParsed fs2 true) [], Normal tt)
               end).
  { intros fs0 HInv0.
    pose proof (parseLoop_simulation (length argv1) fs0 argv1 argv2
                  (le_n _) HInv0 HR) as Hsim.
    destruct (parseLoop (withProcessingArgs fs0 argv1)) as [s1 c1].
    destruct (parseLoop (withProcessingArgs fs0 argv2)) as [s2 c2].
    unfold cleared in Hsim. cbn [fst snd] in Hsim.
    pose proof (f_equal fst Hsim) as Hs. pose proof (f_equal snd Hsim) as Hc.
    cbn [fst snd] in Hs, Hc. subst c2.
    rewrite (finish_cleared _ _ Hs). reflexivity. }
  destruct (_isParsed fs); [|exact (Hloop fs HInv)].
  unfold reset.
  pose proof (resetAll_keys (flags fs)) as Hkeys.
  destruct (resetAll (flags fs)) as [m [[]|e]]; [|reflexivity].
  cbn [orDefault]. apply Hloop.
  apply (Inv_keys fs); [reflexivity|exact Hkeys|exact HInv].
Qed.
End Simulation.

(** ** The terminator *)

(** C8: with [--] at the head of the queue the loop of [parse] ends at
    once, every flag as it was and the tokens behind [--] never looked at;
    the tokens that follow a [--] anywhere in the sequence have no
    influence on what [parse] returns; and [--verbose -- --config x] sets
    [verbose] and leaves [config] at its default. *)
Theorem terminator_stops_interpretation (fs : FlagSet) (pre rest : list string) :
  parseLoop (withProcessingArgs fs ("--" :: rest))
  = (withProcessingArgs fs [], Normal tt)
  /\ parse fs (Some (pre ++ "--" :: rest)%list) = parse fs (Some (pre ++ ["--"])%list)
  /\ valueOf (fst (parse testFlagSet (Some ["--verbose"; "--"; "--config"; "x"])))
             "verbose" = Some (VBoolean true)
  /\ valueOf (fst (parse testFlagSet (Some ["--verbose"; "--"; "--config"; "x"])))
             "config" = valueOf testFlagSet "config".
Proof.
  split; [|split; [|split; reflexivity]].
  - rewrite parseLoop_step. reflexivity.
  - apply (parse_simulation
             (fun q1 q2 => exists p, q1 = (p ++ "--" :: rest)%list
                                     /\ q2 = (p ++ ["--"])%list)
             (fun _ => True)).
    + intros q1 q2 (p & -> & ->). destruct p; cbn; left; reflexivity.
    + intros s a1 a2 q1 q2 _ (p & H1 & H2).
      destruct p; cbn in H1, H2; congruence.
    + intros a1 a2 q1 q2 (p & H1 & H2) Hterm.
      destruct p as [|a p]; cbn in H1, H2.
      * injection H1 as -> _. discriminate Hterm.
      * exists p. split; congruence.
    + trivial.
    + trivial.
    + exists pre. split; reflexivity.
Qed.

(** ** Alias and long name *)

Lemma has_keys {V : Type} (m : list (string * V)) k :
  JsMap.has m k = includes (map fst m) k.
Proof.
  unfold JsMap.has.
  induction m as [|[k0 v0] m IH]; cbn; [reflexivity|].
  destruct (String.eqb k0 k); [reflexivity|exact IH].
Qed.

Lemma splitAtEquals_plain n :
  JsString.indexOf n "=" = None -> splitAtEquals n = (n, None).
Proof.
  intros H. unfold splitAtEquals. rewrite H. reflexivity.
Qed.

Lemma splitAtEquals_inline n v :
  JsString.indexOf n "=" = None -> splitAtEquals (n ++ "=" ++ v) = (n, Some v).
Proof.
  unfold splitAtEquals.
  induction n as [|c n IH]; cbn; [reflexivity|].
  destruct (Ascii.eqb c "=") eqn:Ec; [discriminate|].
  destruct (JsString.indexOf n "=") eqn:En; [discriminate|].
  intros _. specialize (IH eq_refl). cbn [append] in IH.
  destruct (JsString.indexOf (n ++ String "=" v) "=") as [i|]; [|discriminate].
  cbn. injection IH as -> ->. reflexivity.
Qed.

Lemma parseHead_flag_token fs arg ident inline :
  isFlagToken arg = true ->
  splitToken arg = (ident, inline) ->
  validIdentifier ident = true ->
  isHelp ident = false ->
  parseHead fs arg =
  match resolve fs ident with
  | None => HThrow (ParseError (new_FlagParseError "Unknown flag" (Some ident) None))
  | Some flag => HResolved flag (resolvedFlagName fs ident) inline
  end.
Proof.
  intros Htok Hsplit Hid Hhelp.
  unfold isFlagToken in Htok.
  apply andb_prop in Htok as [Htok Hlone].
  apply andb_prop in Htok as [Hterm Hdash].
  apply negb_true_iff in Hterm, Hlone.
  unfold validIdentifier in Hid.
  apply andb_prop in Hid as [Hlen Hlead].
  apply negb_true_iff in Hlen, Hlead.
  unfold isHelp in Hhelp.
  unfold parseHead.
  rewrite Hterm, Hdash, Hlone, Hsplit. cbn [negb orb].
  rewrite Hlen, Hlead, Hhelp. reflexivity.
Qed.

Lemma startsWith_dash d s :
  JsString.startsWith (String d s) "-" = Ascii.eqb d "-".
Proof.
  cbn [JsString.startsWith]. rewrite andb_true_r. apply Ascii.eqb_sym.
Qed.

Lemma startsWith_dash_dash d s :
  JsString.startsWith (String "-" (String d s)) "--" = Ascii.eqb d "-".
Proof.
  cbn [JsString.startsWith]. rewrite andb_true_r, Ascii.eqb_refl.
  apply Ascii.eqb_sym.
Qed.

Lemma eqb_dash_dash d s :
  Ascii.eqb d "-" = false -> String.eqb (String "-" (String d s)) "--" = false.
Proof.
  intros H. cbn [String.eqb]. rewrite Ascii.eqb_refl, H. reflexivity.
Qed.

Lemma eqb_lone_dash d s : String.eqb (String "-" (String d s)) "-" = false.
Proof.
  cbn [String.eqb]. rewrite Ascii.eqb_refl. reflexivity.
Qed.

Lemma append_nil_r s : s ++ "" = s.
Proof.
  induction s as [|c s IH]; cbn; [reflexivity|]. rewrite IH. reflexivity.
Qed.

(** A valid alias is one character, neither [-] nor [=]. *)
Lemma validAlias_char a :
  validAlias a = true ->
  exists c, a = String c "" /\ Ascii.eqb c "-" = false /\ Ascii.eqb c "=" = false.
Proof.
  unfold validAlias. intros H.
  apply andb_prop in H as [H Heq]. apply andb_prop in H as [Hlen Hdash].
  destruct a as [|c [|c' a']]; try discriminate.
  exists c. cbn in Hdash, Heq.
  destruct (Ascii.eqb c "-"), (Ascii.eqb c "="); try discriminate. auto.
Qed.

Section AliasAndName.
Variables (fs : FlagSet) (a n : string).
Hypothesis Halias : JsMap.get (aliases fs) a = Some n.
Hypothesis Hself : resolvedFlagName fs n = n.
Hypothesis Hdeclared : JsMap.has (flags fs) n = true.
Hypothesis Ha : validAlias a = true.
Hypothesis Hahelp : isHelp a = false.
Hypothesis Hn : plainName n = true.

(** What [plainName] says, piece by piece. *)
Lemma plainName_facts :
  exists d n', n = String d n' /\ Ascii.eqb d "-" = false
               /\ validIdentifier n = true /\ isHelp n = false
               /\ JsString.indexOf n "=" = None.
Proof.
  unfold plainName in Hn.
  apply andb_prop in Hn as [H Heq]. apply andb_prop in H as [Hid Hh].
  apply negb_true_iff in Hh.
  destruct (JsString.indexOf n "=") eqn:E; [discriminate|].
  pose proof Hid as Hid'. unfold validIdentifier in Hid'.
  apply andb_prop in Hid' as [Hlen Hlead]. apply negb_true_iff in Hlead.
  destruct n as [|d n']; [discriminate|].
  exists d, n'. rewrite startsWith_dash in Hlead. auto.
Qed.

Lemma resolve_alias : resolve fs a = JsMap.get (flags fs) n.
Proof.
  unfold resolve, resolvedFlagName. rewrite Halias.
  destruct plainName_facts as (d & n' & -> & _). reflexivity.
Qed.

Lemma resolve_name : resolve fs n = JsMap.get (flags fs) n.
Proof.
  unfold resolve. rewrite Hself. reflexivity.
Qed.

Lemma declared_flag : exists flag, JsMap.get (flags fs) n = Some flag.
Proof.
  unfold JsMap.has in Hdeclared.
  destruct (JsMap.get (flags fs) n) as [flag|]; [eauto|discriminate].
Qed.

(** [_parseOne] decides the alias form and the long form alike. *)
Lemma parseHead_sameFlagToken t1 t2 :
  sameFlagToken a n t1 t2 -> parseHead fs t1 = parseHead fs t2.
Proof.
  destruct (validAlias_char _ Ha) as (c & Hac & Hc1 & Hc2).
  destruct plainName_facts as (d & n' & Hnd & Hd & Hid & Hh & Hidx).
  destruct declared_flag as [flag Hflag].
  assert (Hshort : forall sfx inline,
             splitAtEquals (String c sfx) = (a, inline) ->
             parseHead fs (String "-" (String c sfx)) = HResolved flag n inline).
  { intros sfx inline Hsplit.
    rewrite (parseHead_flag_token fs _ a inline).
    - rewrite resolve_alias, Hflag. unfold resolvedFlagName. rewrite Halias.
      rewrite Hnd. reflexivity.
    - unfold isFlagToken.
      rewrite (eqb_dash_dash _ _ Hc1), eqb_lone_dash, startsWith_dash.
      reflexivity.
    - unfold splitToken. rewrite startsWith_dash_dash, Hc1. exact Hsplit.
    - unfold validIdentifier. rewrite Hac, startsWith_dash, Hc1. reflexivity.
    - exact Hahelp. }
  assert (Hlong : forall sfx inline,
             splitAtEquals (n ++ sfx) = (n, inline) ->
             parseHead fs ("--" ++ n ++ sfx) = HResolved flag n inline).
  { intros sfx inline Hsplit.
    rewrite (parseHead_flag_token fs _ n inline); trivial.
    - rewrite resolve_name, Hflag, Hself. reflexivity.
    - unfold isFlagToken. rewrite Hnd. cbn [append].
      rewrite eqb_lone_dash, startsWith_dash.
      cbn [String.eqb]. rewrite !Ascii.eqb_refl. reflexivity. }
  intros [t| |v].
  - reflexivity.
  - replace ("--" ++ n) with ("--" ++ n ++ "")
      by (rewrite append_nil_r; reflexivity).
    rewrite (Hlong "" None).
    + rewrite Hac. apply (Hshort "" None).
      rewrite <- Hac. apply splitAtEquals_plain.
      rewrite Hac. cbn [JsString.indexOf]. rewrite Hc2. reflexivity.
    + rewrite append_nil_r. apply splitAtEquals_plain, Hidx.
  - rewrite (Hlong ("=" ++ v) (Some v)).
    + rewrite Hac. apply (Hshort ("=" ++ v) (Some v)).
      rewrite Hac. apply (splitAtEquals_inline (String c "") v).
      cbn [JsString.indexOf]. rewrite Hc2. reflexivity.
    + apply splitAtEquals_inline, Hidx.
Qed.
End AliasAndName.

(** *** Registration keeps the registry well formed *)

Lemma JsMap_get_set {V : Type} (m : list (string * V)) k v k' :
  JsMap.get (JsMap.set m k v) k'
  = if String.eqb k k' then Some v else JsMap.get m k'.
Proof.
  induction m as [|[k0 v0] m IH]; cbn; [reflexivity|].
  destruct (String.eqb k0 k) eqn:E0; cbn.
  - apply String.eqb_eq in E0. subst k0.
    destruct (String.eqb k k'); reflexivity.
  - rewrite IH.
    destruct (String.eqb k0 k') eqn:E1; [|reflexivity].
    apply String.eqb_eq in E1. subst k'.
    rewrite String.eqb_sym, E0. reflexivity.
Qed.

Lemma JsMap_get_set_same {V : Type} (m : list (string * V)) k v :
  JsMap.get (JsMap.set m k v) k = Some v.
Proof.
  rewrite JsMap_get_set, String.eqb_refl. reflexivity.
Qed.

Lemma JsMap_has_set {V : Type} (m : list (string * V)) k v k' :
  JsMap.has (JsMap.set m k v) k' = String.eqb k k' || JsMap.has m k'.
Proof.
  unfold JsMap.has. rewrite JsMap_get_set.
  destruct (String.eqb k k'); reflexivity.
Qed.

Lemma includes_values (m : list (string * string)) k v :
  JsMap.get m k = Some v -> includes (JsMap.values m) v = true.
Proof.
  unfold JsMap.values.
  induction m as [|[k0 v0] m IH]; cbn; [discriminate|].
  destruct (String.eqb k0 k).
  - intros [= ->]. rewrite String.eqb_refl. reflexivity.
  - intros H. rewrite (IH H). apply orb_true_r.
Qed.

Lemma new_Flag_alias name0 description0 alias0 holder flag :
  new_Flag name0 description0 alias0 holder = Normal flag ->
  name flag = name0
  /\ forall a, alias flag = Some a -> validAlias a = true.
Proof.
  unfold new_Flag, validAlias.
  destruct alias0 as [a0|]; [|intros [= <-]; split; [reflexivity|discriminate]].
  destruct (JsString.truthy a0);
    [|intros [= <-]; split; [reflexivity|discriminate]].
  destruct (String.length a0 =? 1)%nat eqn:E1; [|discriminate].
  destruct (String.eqb a0 "-") eqn:E2; [discriminate|].
  destruct (String.eqb a0 "=") eqn:E3; [discriminate|].
  intros [= <-]. split; [reflexivity|].
  cbn [alias]. intros a [= <-]. rewrite E1, E2, E3. reflexivity.
Qed.

Lemma new_FlagSet_WellFormed programName args :
  WellFormed (new_FlagSet programName args).
Proof.
  intros a n H. discriminate H.
Qed.

Lemma _registerFlag_WellFormed fs flag :
  WellFormed fs ->
  (forall a, alias flag = Some a -> validAlias a = true) ->
  WellFormed (fst (_registerFlag fs flag)).
Proof.
  intros Hwf Hvalid. unfold _registerFlag.
  destruct (JsMap.has (flags fs) (name flag) || JsMap.has (aliases fs) (name flag))
    eqn:Hname; [exact Hwf|].
  apply orb_false_elim in Hname as [_ Hname].
  assert (Hplain : WellFormed (withFlags fs (JsMap.set (flags fs) (name flag) flag))).
  { intros a n H. destruct (Hwf a n H) as (Hv & Hr & Hh).
    repeat split; trivial.
    cbn. rewrite JsMap_has_set, Hh. apply orb_true_r. }
  destruct (alias flag) as [a|] eqn:Ea; [|exact Hplain].
  destruct (JsString.truthy a) eqn:Ht; [|exact Hplain].
  destruct (JsMap.has (flags fs) a || JsMap.has (aliases fs) a
            || includes (JsMap.values (aliases fs)) a) eqn:Hchecks; [exact Hwf|].
  apply orb_false_elim in Hchecks as [_ Hvalues].
  cbn [fst]. intros a0 n0. unfold resolvedFlagName. cbn.
  rewrite JsMap_get_set, JsMap_has_set, JsMap_get_set.
  destruct (String.eqb a a0) eqn:Eaa.
  - apply String.eqb_eq in Eaa. subst a0. intros [= <-].
    rewrite String.eqb_refl. split; [apply Hvalid; reflexivity|]. split; [|reflexivity].
    destruct (String.eqb a (name flag)) eqn:Ean.
    + apply String.eqb_eq in Ean. rewrite <- Ean, Ht. reflexivity.
    + unfold JsMap.has in Hname.
      destruct (JsMap.get (aliases fs) (name flag)); [discriminate|reflexivity].
  - intros H. destruct (Hwf a0 n0 H) as (Hv & Hr & Hh).
    rewrite Hh, orb_true_r. repeat split; trivial.
    destruct (String.eqb a n0) eqn:Ean; [|exact Hr].
    apply String.eqb_eq in Ean. subst n0.
    rewrite (includes_values _ _ _ H) in Hvalues. discriminate.
Qed.

(** Each of the four factory methods keeps the registry well formed,
    whether it registers the flag or throws. *)
Lemma declare_WellFormed fs name0 description0 alias0 holder :
  WellFormed fs ->
  WellFormed (fst (declare fs name0 description0 alias0 holder)).
Proof.
  intros Hwf. unfold declare.
  destruct (new_Flag name0 description0 alias0 holder) as [flag|e] eqn:E;
    [|exact Hwf].
  destruct (new_Flag_alias _ _ _ _ _ E) as [_ Hvalid].
  pose proof (_registerFlag_WellFormed fs flag Hwf Hvalid) as H.
  destruct (_registerFlag fs flag) as [fs' [[]|e]]; exact H.
Qed.

Lemma testFlagSet_WellFormed : WellFormed testFlagSet.
Proof.
  unfold testFlagSet, FlagSetOps.bool, FlagSetOps.string, FlagSetOps.number,
    FlagSetOps.stringList.
  repeat apply declare_WellFormed. apply new_FlagSet_WellFormed.
Qed.

(** C9, as the code has it: in a well-formed registry (any registry built
    by the factory methods), let [a] be the alias of the flag [n], where
    [a] is not the help request [h] and [n] is a name a token can spell
    (not empty, no leading [-], no [=], neither [h] nor [help]).  Two token
    sequences that differ only in writing some flag tokens [-a] or
    [-a=value] in one and [--n] or [--n=value] in the other make [parse]
    return the same completion and leave the same registry. *)
Theorem alias_and_long_name_parse_alike fs a n argv1 argv2 :
  WellFormed fs ->
  JsMap.get (aliases fs) a = Some n ->
  isHelp a = false ->
  plainName n = true ->
  Forall2 (sameFlagToken a n) argv1 argv2 ->
  parse fs (Some argv1) = parse fs (Some argv2).
Proof.
  intros Hwf Halias Hahelp Hn Hargv.
  destruct (Hwf a n Halias) as (Ha & _ & _).
  apply (parse_simulation
           (Forall2 (sameFlagToken a n))
           (fun s => JsMap.get (aliases s) a = Some n
                     /\ resolvedFlagName s n = n
                     /\ JsMap.has (flags s) n = true)).
  - intros q1 q2 [|t1 t2 q1' q2' Ht _]; [exact I|].
    cbv beta iota delta [alike].
    destruct Ht; [left; reflexivity|right; split; reflexivity..].
  - intros s a1 a2 q1 q2 (H1 & H2 & H3) HR.
    inversion HR; subst.
    apply (parseHead_sameFlagToken s a n); assumption.
  - intros a1 a2 q1 q2 HR _. inversion HR; subst. assumption.
  - intros s s' Hal Hkeys (H1 & H2 & H3).
    unfold resolvedFlagName in *. rewrite Hal.
    rewrite has_keys, Hkeys, <- has_keys. auto.
  - destruct (Hwf a n Halias) as (_ & Hr & Hh). auto.
  - exact Hargv.
Qed.

(** [-v] and [-v=false] against [--verbose] and [--verbose=false]. *)
Lemma alias_and_long_name_parse_alike_witness :
  parse testFlagSet (Some ["-v"; "-c"; "user.json"; "-v=false"])
  = parse testFlagSet (Some ["--verbose"; "-c"; "user.json"; "--verbose=false"]).
Proof.
  apply (alias_and_long_name_parse_alike testFlagSet "v" "verbose").
  - exact testFlagSet_WellFormed.
  - reflexivity.
  - reflexivity.
  - reflexivity.
  - repeat constructor.
    exact (alias_inline "v" "verbose" "false").
Defined.

(** C9, counterexample: [verbose] is declared with the alias [h].  [-h]
    raises the help signal and leaves [verbose] false; [--verbose]
    completes and sets it. *)
Lemma alias_h_and_long_name_differ :
  JsMap.get (aliases aliasHFlagSet) "h" = Some "verbose"
  /\ snd (parse aliasHFlagSet (Some ["-h"])) = Throw HelpRequestError
  /\ valueOf (fst (parse aliasHFlagSet (Some ["-h"]))) "verbose"
     = Some (VBoolean false)
  /\ snd (parse aliasHFlagSet (Some ["--verbose"])) = Normal tt
  /\ valueOf (fst (parse aliasHFlagSet (Some ["--verbose"]))) "verbose"
     = Some (VBoolean true).
Proof.
  repeat split.
Qed.


(** * Further properties of the code *)

(** ** A flag through its life *)

Lemma sameFlag_refl f : sameFlag f f.
Proof.
  unfold sameFlag. destruct (valueHolder f); auto.
Qed.

Lemma set_keeps_kind v stringValue v' :
  Value.set v stringValue = Normal v' ->
  match v, v' with
  | BooleanValue _, BooleanValue _ => True
  | StringValue _, StringValue _ => True
  | NumberValue _, NumberValue _ => True
  | StringListValue _ init0, StringListValue _ init => init = init0
  | _, _ => False
  end.
Proof.
  destruct v; cbn.
  - destruct (_ || _); [intros [= <-]; exact I|].
    destruct (_ || _); [intros [= <-]; exact I|discriminate].
  - intros [= <-]. exact I.
  - destruct (isNaN _); [discriminate|intros [= <-]; exact I].
  - intros [= <-]. reflexivity.
Qed.

Lemma sameFlag_withValue f0 f v isSet :
  sameFlag f0 f ->
  match valueHolder f, v with
  | BooleanValue _, BooleanValue _ => True
  | StringValue _, StringValue _ => True
  | NumberValue _, NumberValue _ => True
  | StringListValue _ init0, StringListValue _ init => init = init0
  | _, _ => False
  end ->
  sameFlag f0 (withValue f v isSet).
Proof.
  unfold sameFlag. cbn. intros (H1 & H2 & H3 & H4 & H5) Hk.
  repeat split; trivial.
  destruct (valueHolder f0), (valueHolder f), v; try contradiction; congruence.
Qed.

Lemma reached_sameFlag f0 f : reached f0 f -> sameFlag f0 f.
Proof.
  induction 1 as [|f f' s _ IH Hset|f f' _ IH Himp|f f' _ IH Hreset].
  - apply sameFlag_refl.
  - unfold FlagOps._setValueFromString in Hset.
    destruct (Value.set (valueHolder f) s) as [v|] eqn:E; [|discriminate].
    injection Hset as <-. apply sameFlag_withValue; [exact IH|].
    exact (set_keeps_kind _ _ _ E).
  - unfold FlagOps._setImplicitly in Himp.
    destruct (String.eqb _ "boolean"); [|discriminate].
    destruct (Value.set (valueHolder f) "true") as [v|] eqn:E; [|discriminate].
    injection Himp as <-. apply sameFlag_withValue; [exact IH|].
    exact (set_keeps_kind _ _ _ E).
  - unfold FlagOps._resetToDefault in Hreset.
    destruct (Value._clearAndReset (valueHolder f) _) as [v|] eqn:E; [|discriminate].
    injection Hreset as <-. apply sameFlag_withValue; [exact IH|].
    unfold Value._clearAndReset in E.
    destruct (valueHolder f) as [b|s|x|cur init] eqn:Ev;
      try (destruct (JsString.truthy _);
           [exact (set_keeps_kind _ _ _ E)|injection E as <-; exact I]).
    injection E as <-. reflexivity.
Qed.

(** X1: a flag constructed over a boolean, over a string that is not
    empty, or over a string list is given back exactly as constructed by
    [_resetToDefault], after any sequence of calls of
    [_setValueFromString], [_setImplicitly] and [_resetToDefault] that
    returned normally. *)
Theorem resetToDefault_restores_constructed
        name0 description0 alias0 holder f0 f :
  new_Flag name0 description0 alias0 holder = Normal f0 ->
  restorable holder ->
  reached f0 f ->
  FlagOps._resetToDefault f = Normal f0.
Proof.
  intros Hnew Hrest Hreached.
  assert (Hf0 : valueHolder f0 = holder
                /\ initialDefaultValueString f0 = Value.asString holder
                /\ _isSet f0 = false).
  { unfold new_Flag in Hnew.
    destruct alias0 as [a|]; [destruct (JsString.truthy a);
      [destruct (_ || _); [discriminate|]|]|];
      injection Hnew as <-; auto. }
  destruct Hf0 as (Hh & Hd & Hs).
  destruct (reached_sameFlag _ _ Hreached) as (H1 & H2 & H3 & H4 & H5).
  unfold FlagOps._resetToDefault. rewrite H4, Hd.
  assert (Hreset : Value._clearAndReset (valueHolder f) (Value.asString holder)
                   = Normal holder).
  { rewrite Hh in H5.
    destruct holder as [d|s|x|cur init], (valueHolder f) as [b'|s'|x'|cur' init'];
      cbn in Hrest, H5; try contradiction.
    - apply clearAndReset_boolean.
    - destruct s; [discriminate|reflexivity].
    - subst. reflexivity. }
  rewrite Hreset. unfold withValue. rewrite H1, H2, H3, H4, <- Hh, <- Hs.
  destruct f0; reflexivity.
Qed.

(** A list flag built over [a], after the appends of [b] and [c]. *)
Lemma resetToDefault_restores_constructed_witness :
  FlagOps._resetToDefault
    (mkFlag "include" "d" (Some "i") (StringListValue ["a"; "b"; "c"] ["a"]) "a" true)
  = Normal (mkFlag "include" "d" (Some "i") (StringListValue ["a"] ["a"]) "a" false).
Proof.
  apply (resetToDefault_restores_constructed
           "include" "d" (Some "i") (new_StringListValue ["a"])).
  - reflexivity.
  - reflexivity.
  - eapply reached_set; [eapply reached_set; [apply reached_start|]|];
      reflexivity.
Defined.

(** ** Registration *)

Lemma has_In {V : Type} (m : list (string * V)) k :
  JsMap.has m k = true <-> In k (map fst m).
Proof.
  unfold JsMap.has.
  induction m as [|[k0 v0] m IH]; cbn; [split; [discriminate|contradiction]|].
  destruct (String.eqb k0 k) eqn:E.
  - apply String.eqb_eq in E. split; auto.
  - rewrite IH. apply String.eqb_neq in E. split; [auto|].
    intros [H|H]; [contradiction|exact H].
Qed.

Lemma JsMap_set_new_keys {V : Type} (m : list (string * V)) k v :
  JsMap.has m k = false -> map fst (JsMap.set m k v) = (map fst m ++ [k])%list.
Proof.
  unfold JsMap.has.
  induction m as [|[k0 v0] m IH]; cbn; [reflexivity|].
  destruct (String.eqb k0 k); [discriminate|].
  intros H. cbn. rewrite (IH H). reflexivity.
Qed.

Lemma NoDup_snoc (l : list string) k :
  NoDup l -> ~ In k l -> NoDup (l ++ [k])%list.
Proof.
  intros Hl Hk. induction Hl as [|x l Hx Hl IH]; cbn.
  - constructor; [intros []|constructor].
  - constructor.
    + rewrite in_app_iff. intros [H|[H|[]]]; [contradiction|].
      subst x. apply Hk. left. reflexivity.
    + apply IH. intros H. apply Hk. right. exact H.
Qed.

Lemma not_has_not_In {V : Type} (m : list (string * V)) k :
  JsMap.has m k = false -> ~ In k (map fst m).
Proof.
  intros H Hin. apply has_In in Hin. congruence.
Qed.

(** The three ways [_registerFlag] ends: it throws and the registry is as
    it was, or it registers the flag with its alias, or without one. *)
Lemma _registerFlag_cases fs flag :
  (exists msg, _registerFlag fs flag = (fs, Throw (FlagDefinitionError msg)))
  \/ (JsMap.has (flags fs) (name flag) = false
      /\ JsMap.has (aliases fs) (name flag) = false
      /\ ((exists a, alias flag = Some a /\ JsString.truthy a = true
                     /\ JsMap.has (flags fs) a = false
                     /\ JsMap.has (aliases fs) a = false
                     /\ includes (JsMap.values (aliases fs)) a = false
                     /\ _registerFlag fs flag
                        = (withFlags
                             (withAliases fs (JsMap.set (aliases fs) a (name flag)))
                             (JsMap.set (flags fs) (name flag) flag),
                           Normal tt))
          \/ (match alias flag with
              | Some a => JsString.truthy a = false
              | None => True
              end
              /\ _registerFlag fs flag
                 = (withFlags fs (JsMap.set (flags fs) (name flag) flag),
                    Normal tt)))).
Proof.
  unfold _registerFlag.
  destruct (JsMap.has (flags fs) (name flag)) eqn:H1;
    [left; eexists; reflexivity|].
  destruct (JsMap.has (aliases fs) (name flag)) eqn:H2;
    [left; eexists; reflexivity|].
  cbn [orb].
  destruct (alias flag) as [a|] eqn:Ea; [|right; auto].
  destruct (JsString.truthy a) eqn:Ht; [|right; auto].
  destruct (JsMap.has (flags fs) a) eqn:H3; [left; eexists; reflexivity|].
  destruct (JsMap.has (aliases fs) a) eqn:H4; [left; eexists; reflexivity|].
  destruct (includes (JsMap.values (aliases fs)) a) eqn:H5;
    [left; eexists; reflexivity|].
  right. repeat split. left. exists a. auto 10.
Qed.

(** What [declare] returns is what [new_Flag] and [_registerFlag] return. *)
Lemma declare_cases fs name0 description0 alias0 holder :
  (exists msg, declare fs name0 description0 alias0 holder
               = (fs, Throw (FlagDefinitionError msg)))
  \/ (exists flag,
         new_Flag name0 description0 alias0 holder = Normal flag
         /\ _registerFlag fs flag = (fst (_registerFlag fs flag), Normal tt)
         /\ declare fs name0 description0 alias0 holder
            = (fst (_registerFlag fs flag), Normal flag)).
Proof.
  unfold declare.
  destruct (new_Flag name0 description0 alias0 holder) as [flag|e] eqn:E.
  - destruct (_registerFlag_cases fs flag)
      as [[msg H]|(_ & _ & [(a & _ & _ & _ & _ & _ & H)|(_ & H)])];
      [left; rewrite H; eexists; reflexivity
      |right; exists flag; rewrite H; repeat split..].
  - left. unfold new_Flag in E.
    destruct alias0 as [a|]; [|discriminate].
    destruct (JsString.truthy a); [|discriminate].
    destruct (_ || _); [|discriminate].
    injection E as <-. eauto.
Qed.

(** X2: a declaration that fails throws a definition error and leaves the
    registry exactly as it was: no flag and no alias is half registered. *)
Theorem declare_failure_keeps_registry fs name0 description0 alias0 holder fs' e :
  declare fs name0 description0 alias0 holder = (fs', Throw e) ->
  fs' = fs /\ exists msg, e = FlagDefinitionError msg.
Proof.
  intros H.
  destruct (declare_cases fs name0 description0 alias0 holder)
    as [[msg Hd]|(flag & _ & _ & Hd)]; rewrite Hd in H.
  - injection H as <- <-. eauto.
  - discriminate.
Qed.

(** [config] is declared twice in the registry of the test suite. *)
Lemma declare_failure_keeps_registry_witness :
  fst (FlagSetOps.string testFlagSet "config" (mkOptions "again" None None))
  = testFlagSet.
Proof.
  exact (proj1 (declare_failure_keeps_registry
                  testFlagSet "config" "again" None (StringValue "")
                  _ _ eq_refl)).
Defined.

(** X3: a name or an alias that is already in use cannot be declared
    again, in either direction: the declaration throws a definition error
    when the new name is an existing flag name or alias, and when the new
    alias (not empty) is an existing flag name, an existing alias, or the
    name an existing alias stands for. *)
Theorem declare_collision_throws fs name0 description0 alias0 holder :
  JsMap.has (flags fs) name0 = true
  \/ JsMap.has (aliases fs) name0 = true
  \/ (exists a, alias0 = Some a /\ JsString.truthy a = true
                 /\ (JsMap.has (flags fs) a = true
                     \/ JsMap.has (aliases fs) a = true
                     \/ includes (JsMap.values (aliases fs)) a = true)) ->
  exists msg,
    declare fs name0 description0 alias0 holder
    = (fs, Throw (FlagDefinitionError msg)).
Proof.
  intros Hcol.
  destruct (declare_cases fs name0 description0 alias0 holder)
    as [Hd|(flag & Hnew & Hreg & _)]; [exact Hd|].
  exfalso.
  destruct (new_Flag_alias _ _ _ _ _ Hnew) as [Hname _].
  assert (Halias : forall a, alias0 = Some a -> JsString.truthy a = true ->
                             alias flag = Some a).
  { intros a -> Ht. unfold new_Flag in Hnew. rewrite Ht in Hnew.
    destruct (_ || _); [discriminate|]. injection Hnew as <-. reflexivity. }
  rewrite <- Hname in Hcol.
  destruct (_registerFlag_cases fs flag) as [[msg H]|(H1 & H2 & Hrest)];
    [rewrite H in Hreg; discriminate|].
  destruct Hcol as [H|[H|(a & Ha & Ht & Hc)]]; [congruence..|].
  specialize (Halias a Ha Ht).
  destruct Hrest as [(a' & Ha' & _ & H3 & H4 & H5 & _)|[Hno _]].
  - rewrite Halias in Ha'. injection Ha' as <-.
    destruct Hc as [H|[H|H]]; congruence.
  - rewrite Halias in Hno. congruence.
Qed.

(** [string("s", { alias: "v" })] where [v] is the alias of [verbose]. *)
Lemma declare_collision_throws_witness :
  exists msg,
    FlagSetOps.string testFlagSet "s" (mkOptions "d" (Some "v") None)
    = (testFlagSet, Throw (FlagDefinitionError msg)).
Proof.
  apply (declare_collision_throws testFlagSet "s" "d" (Some "v") (StringValue "")).
  right. right. exists "v". repeat split. right. left. reflexivity.
Defined.

(** X4: after a declaration that succeeded, the flag it returned is the
    one registered under its name, the name resolves to it, its alias (when
    the name is not empty) resolves to it too, and every other flag and
    every earlier alias is registered as before. *)
Theorem declare_then_lookup fs name0 description0 alias0 holder fs' flag :
  declare fs name0 description0 alias0 holder = (fs', Normal flag) ->
  name flag = name0
  /\ JsMap.get (flags fs') name0 = Some flag
  /\ resolve fs' name0 = Some flag
  /\ (forall a, alias flag = Some a -> JsString.truthy name0 = true ->
                 JsMap.get (aliases fs') a = Some name0
                 /\ resolve fs' a = Some flag)
  /\ (forall k, k <> name0 -> JsMap.get (flags fs') k = JsMap.get (flags fs) k)
  /\ (forall k n, JsMap.get (aliases fs) k = Some n ->
                   JsMap.get (aliases fs') k = Some n).
Proof.
  intros Hd.
  destruct (declare_cases fs name0 description0 alias0 holder)
    as [[msg H]|(flag0 & Hnew & Hreg & H)]; rewrite H in Hd; [discriminate|].
  injection Hd as <- <-.
  destruct (new_Flag_alias _ _ _ _ _ Hnew) as [Hname Hvalid].
  split; [exact Hname|]. rewrite <- Hname.
  assert (Hframe : forall (m : list (string * Flag)) k,
             k <> name flag0 ->
             JsMap.get (JsMap.set m (name flag0) flag0) k = JsMap.get m k).
  { intros m k Hk. rewrite JsMap_get_set.
    destruct (String.eqb (name flag0) k) eqn:E; [|reflexivity].
    apply String.eqb_eq in E. congruence. }
  assert (Hnotalias : JsMap.has (aliases fs) (name flag0) = false
                      -> JsMap.get (aliases fs) (name flag0) = None).
  { unfold JsMap.has. destruct (JsMap.get _ _); [discriminate|reflexivity]. }
  destruct (_registerFlag_cases fs flag0)
    as [[msg Hr]|(H1 & H2 & [(a & Ha & Ht & H3 & H4 & H5 & Hr)|(Hno & Hr)])];
    rewrite Hr in *; cbn [fst]; [discriminate Hreg| |].
  - assert (Hres : resolvedFlagName
                     (withFlags
                        (withAliases fs (JsMap.set (aliases fs) a (name flag0)))
                        (JsMap.set (flags fs) (name flag0) flag0))
                     (name flag0) = name flag0).
    { unfold resolvedFlagName. cbn [aliases withFlags withAliases].
      rewrite JsMap_get_set.
      destruct (String.eqb a (name flag0)) eqn:E.
      - apply String.eqb_eq in E. rewrite <- E, Ht. reflexivity.
      - rewrite (Hnotalias H2). reflexivity. }
    split; [apply JsMap_get_set_same|].
    split; [unfold resolve; rewrite Hres; apply JsMap_get_set_same|].
    split; [|split].
    + intros a' Ha' Hn. rewrite Ha in Ha'. injection Ha' as <-.
      assert (Hget : JsMap.get (JsMap.set (aliases fs) a (name flag0)) a
                     = Some (name flag0)) by apply JsMap_get_set_same.
      split; [exact Hget|].
      unfold resolve, resolvedFlagName. cbn [aliases flags withFlags withAliases].
      rewrite Hget, Hn. apply JsMap_get_set_same.
    + intros k Hk. apply Hframe. exact Hk.
    + intros k n Hk. cbn [aliases withFlags withAliases]. rewrite JsMap_get_set.
      destruct (String.eqb a k) eqn:E; [|exact Hk].
      apply String.eqb_eq in E. subst k. unfold JsMap.has in H4.
      rewrite Hk in H4. discriminate.
  - split; [apply JsMap_get_set_same|].
    split; [|split; [|split]].
    + unfold resolve, resolvedFlagName. cbn [aliases flags withFlags].
      rewrite (Hnotalias H2). apply JsMap_get_set_same.
    + intros a Ha _. rewrite Ha in Hno.
      destruct (validAlias_char _ (Hvalid a Ha)) as (c & -> & _).
      discriminate Hno.
    + intros k Hk. apply Hframe. exact Hk.
    + intros k n Hk. exact Hk.
Qed.

(** [verbose] in the registry of the test suite, declared first. *)
Lemma declare_then_lookup_witness :
  resolve (fst (FlagSetOps.bool (new_FlagSet "test-cli" []) "verbose"
                  (mkOptions "Verbose output" (Some "v") None))) "v"
  = Some (mkFlag "verbose" "Verbose output" (Some "v") (BooleanValue false)
                 "false" false).
Proof.
  destruct (declare_then_lookup (new_FlagSet "test-cli" []) "verbose"
              "Verbose output" (Some "v") (BooleanValue false) _ _ eq_refl)
    as (_ & _ & _ & Halias & _).
  exact (proj2 (Halias "v" eq_refl eq_refl)).
Defined.

Lemma _registerFlag_Unique fs flag :
  Unique fs -> Unique (fst (_registerFlag fs flag)).
Proof.
  intros (Hf & Ha & Hal).
  assert (Hold : forall a0 n0,
             JsMap.has (aliases fs) (name flag) = false ->
             JsMap.get (aliases fs) a0 = Some n0 ->
             JsMap.has (JsMap.set (flags fs) (name flag) flag) n0 = true
             /\ (JsMap.has (JsMap.set (flags fs) (name flag) flag) a0 = true ->
                 a0 = n0)).
  { intros a0 n0 Hname Hget. destruct (Hal a0 n0 Hget) as [Hn Hsame].
    rewrite !JsMap_has_set, Hn, orb_true_r. split; [reflexivity|].
    destruct (String.eqb (name flag) a0) eqn:E; [|exact Hsame].
    apply String.eqb_eq in E. subst a0.
    unfold JsMap.has in Hname. rewrite Hget in Hname. discriminate. }
  destruct (_registerFlag_cases fs flag)
    as [[msg Hr]|(H1 & H2 & [(a & Hal' & Ht & H3 & H4 & H5 & Hr)|(Hno & Hr)])];
    rewrite Hr; cbn [fst]; [exact (conj Hf (conj Ha Hal))| |].
  - unfold Unique. cbn [flags aliases withFlags withAliases].
    rewrite (JsMap_set_new_keys _ _ _ H1), (JsMap_set_new_keys _ _ _ H4).
    split; [apply NoDup_snoc; [exact Hf|apply not_has_not_In, H1]|].
    split; [apply NoDup_snoc; [exact Ha|apply not_has_not_In, H4]|].
    intros a0 n0. rewrite JsMap_get_set.
    destruct (String.eqb a a0) eqn:E; [|apply Hold; exact H2].
    apply String.eqb_eq in E. subst a0. intros [= <-].
    rewrite !JsMap_has_set, String.eqb_refl, H3, orb_false_r.
    split; [reflexivity|].
    intros Heq. apply String.eqb_eq in Heq. congruence.
  - unfold Unique. cbn [flags aliases withFlags].
    rewrite (JsMap_set_new_keys _ _ _ H1).
    split; [apply NoDup_snoc; [exact Hf|apply not_has_not_In, H1]|].
    split; [exact Ha|].
    intros a0 n0. apply Hold. exact H2.
Qed.

Lemma _declare_Unique fs name0 description0 alias0 holder :
  Unique fs ->
  Unique (fst (declare fs name0 description0 alias0 holder)).
Proof.
  intros Hu.
  destruct (declare_cases fs name0 description0 alias0 holder)
    as [[msg H]|(flag & _ & _ & H)]; rewrite H; cbn [fst]; [exact Hu|].
  apply _registerFlag_Unique. exact Hu.
Qed.

(** X5: registration keeps the registry free of duplicates.  No flag name
    and no alias is registered twice, every alias stands for a declared
    flag, and a string is both an alias and a flag name only when it is the
    alias of the flag of that name. *)
Theorem declare_keeps_unique fs name0 description0 alias0 holder :
  Unique fs ->
  Unique (fst (declare fs name0 description0 alias0 holder)).
Proof.
  apply _declare_Unique.
Qed.

(** The empty registry, and the first declaration of the test suite. *)
Lemma declare_keeps_unique_witness :
  Unique (fst (FlagSetOps.bool (new_FlagSet "test-cli" []) "verbose"
                 (mkOptions "Verbose output" (Some "v") None))).
Proof.
  apply (declare_keeps_unique (new_FlagSet "test-cli" [])).
  repeat split; try constructor; discriminate.
Defined.

(** The checks let a flag take its own name as its alias. *)
Example alias_may_equal_own_name :
  exists fs' flag,
    FlagSetOps.bool (new_FlagSet "test-cli" []) "x" (mkOptions "d" (Some "x") None)
    = (fs', Normal flag)
    /\ JsMap.get (aliases fs') "x" = Some "x"
    /\ JsMap.has (flags fs') "x" = true.
Proof.
  do 2 eexists. repeat split.
Qed.

Lemma declare_Keyed fs name0 description0 alias0 holder :
  Keyed fs -> Keyed (fst (declare fs name0 description0 alias0 holder)).
Proof.
  intros Hk.
  destruct (declare_cases fs name0 description0 alias0 holder)
    as [[msg H]|(flag & Hnew & Hreg & H)]; rewrite H; cbn [fst]; [exact Hk|].
  destruct (new_Flag_alias _ _ _ _ _ Hnew) as [_ Hvalid].
  destruct (_registerFlag_cases fs flag)
    as [[msg Hr]|(H1 & H2 & [(a & Ha & Ht & H3 & H4 & H5 & Hr)|(Hno & Hr)])];
    rewrite Hr in *; cbn [fst]; [discriminate Hreg| |];
    intros k f; cbn [flags aliases withFlags withAliases]; rewrite JsMap_get_set;
    destruct (String.eqb (name flag) k) eqn:E.
  - apply String.eqb_eq in E. intros [= <-]. split; [exact E|].
    intros a' Ha'. rewrite Ha in Ha'. injection Ha' as <-.
    rewrite JsMap_get_set_same, E. reflexivity.
  - intros Hget. destruct (Hk k f Hget) as [Hn Hal]. split; [exact Hn|].
    intros a' Ha'. rewrite JsMap_get_set.
    destruct (String.eqb a a') eqn:Ea; [|exact (Hal a' Ha')].
    apply String.eqb_eq in Ea. subst a'.
    unfold JsMap.has in H4. rewrite (Hal a Ha') in H4. discriminate.
  - apply String.eqb_eq in E. intros [= <-]. split; [exact E|].
    intros a' Ha'. rewrite Ha' in Hno.
    destruct (validAlias_char _ (Hvalid a' Ha')) as (c & -> & _).
    discriminate Hno.
  - intros Hget. exact (Hk k f Hget).
Qed.

(** X6: in every registry that the factory methods have built, each flag
    is found under its own name, that name resolves to it, and its alias,
    a single character other than [-] and [=], resolves to it as well (for
    a flag whose name is not empty). *)
Theorem declared_flags_resolve fs k f :
  declared fs ->
  JsMap.get (flags fs) k = Some f ->
  name f = k
  /\ resolve fs k = Some f
  /\ forall a, alias f = Some a ->
                validAlias a = true
                /\ (JsString.truthy k = true -> resolve fs a = Some f).
Proof.
  intros Hd Hget.
  assert (Hinv : WellFormed fs /\ Unique fs /\ Keyed fs).
  { clear Hget. induction Hd as [p args|fs0 n0 d0 a0 h0 _ (Hw & Hu & Hk)].
    - repeat split; try constructor; discriminate.
    - split; [apply declare_WellFormed, Hw|].
      split; [apply _declare_Unique, Hu|apply declare_Keyed, Hk]. }
  destruct Hinv as (Hw & (_ & _ & Hu) & Hk).
  destruct (Hk k f Hget) as [Hname Hal].
  assert (Hself : resolvedFlagName fs k = k).
  { unfold resolvedFlagName.
    destruct (JsMap.get (aliases fs) k) as [n|] eqn:E; [|reflexivity].
    destruct (Hu k n E) as [_ Hsame].
    unfold JsMap.has in Hsame. rewrite Hget in Hsame.
    rewrite <- (Hsame eq_refl).
    destruct (Hw k n E) as (Hv & _).
    destruct (validAlias_char _ Hv) as (c & -> & _). reflexivity. }
  split; [exact Hname|].
  split; [unfold resolve; rewrite Hself; exact Hget|].
  intros a Ha. specialize (Hal a Ha).
  destruct (Hw a k Hal) as (Hv & _). split; [exact Hv|].
  intros Ht. unfold resolve, resolvedFlagName. rewrite Hal, Ht. exact Hget.
Qed.

(** [config], the second flag of the registry of the test suite. *)
Lemma declared_flags_resolve_witness :
  resolve testFlagSet "c"
  = Some (mkFlag "config" "Config file" (Some "c") (StringValue "default.json")
                 "default.json" false).
Proof.
  assert (Hd : declared testFlagSet) by (repeat apply declared_step; apply declared_new).
  destruct (declared_flags_resolve testFlagSet "config" _ Hd eq_refl)
    as (_ & _ & Halias).
  exact (proj2 (Halias "c" eq_refl) eq_refl).
Defined.

(** ** More on the token parser *)

(** X7: flags come first.  When the token at the head of the queue does
    not start with [-], or is the lone [-], the loop of [parse] ends there:
    no flag changes and the rest of the queue is dropped unread; on a
    registry not parsed before, [parse] completes with nothing changed but
    [isParsed]. *)
Theorem non_flag_token_stops fs arg rest :
  JsString.startsWith arg "-" = false \/ arg = "-" ->
  parseLoop (withProcessingArgs fs (arg :: rest))
  = (withProcessingArgs fs [], Normal tt)
  /\ (_isParsed fs = false ->
      parse fs (Some (arg :: rest))
      = (withProcessingArgs (withIsParsed fs true) [], Normal tt)).
Proof.
  intros Harg.
  assert (Hhead : forall s, parseHead s arg = HNotAFlag).
  { intros s. unfold parseHead.
    destruct Harg as [H| ->]; [|reflexivity].
    rewrite (not_dash_not_terminator _ H), H. reflexivity. }
  assert (Hloop : forall s, parseLoop (withProcessingArgs s (arg :: rest))
                            = (withProcessingArgs s [], Normal tt)).
  { intros s. rewrite parseLoop_step. cbn [_processingArgs withProcessingArgs].
    rewrite _parseOne_head, Hhead. reflexivity. }
  split; [apply Hloop|].
  intros Hp. unfold parse. rewrite Hp. cbn [orDefault]. rewrite Hloop. reflexivity.
Qed.

(** [restArg] behind nothing, in the registry of the test suite. *)
Lemma non_flag_token_stops_witness :
  parseLoop (withProcessingArgs testFlagSet ["restArg"; "--verbose"])
  = (withProcessingArgs testFlagSet [], Normal tt).
Proof.
  exact (proj1 (non_flag_token_stops testFlagSet "restArg" ["--verbose"]
                  (or_introl eq_refl))).
Defined.

(** X8: a flag token whose identifier is well formed, is not the help
    request, and is neither a declared name nor a declared alias makes the
    loop of [parse] throw the unknown-flag error.  The error carries the
    identifier, without the dashes and without the [=value], and no flag
    has changed. *)
Theorem unknown_flag_throws fs arg rest ident inline :
  isFlagToken arg = true ->
  splitToken arg = (ident, inline) ->
  validIdentifier ident = true ->
  isHelp ident = false ->
  JsMap.has (flags fs) ident = false ->
  JsMap.has (aliases fs) ident = false ->
  parseLoop (withProcessingArgs fs (arg :: rest))
  = (withProcessingArgs fs rest,
     Throw (ParseError (new_FlagParseError "Unknown flag" (Some ident) None))).
Proof.
  intros Htok Hsplit Hid Hhelp Hf Ha.
  rewrite parseLoop_step. cbn [_processingArgs withProcessingArgs].
  rewrite _parseOne_head, (parseHead_flag_token fs arg ident inline); trivial.
  unfold resolve, resolvedFlagName, JsMap.has in *.
  destruct (JsMap.get (aliases fs) ident); [discriminate|].
  destruct (JsMap.get (flags fs) ident); [discriminate|]. reflexivity.
Qed.

(** [--unknown=1] in the registry of the test suite. *)
Lemma unknown_flag_throws_witness :
  parseLoop (withProcessingArgs testFlagSet ["--unknown=1"; "--verbose"])
  = (withProcessingArgs testFlagSet ["--verbose"],
     Throw (ParseError (mkFlagParseError "Flag 'unknown': Unknown flag"
                                         (Some "unknown") None))).
Proof.
  exact (unknown_flag_throws testFlagSet "--unknown=1" ["--verbose"] "unknown"
           (Some "1") eq_refl eq_refl eq_refl eq_refl eq_refl eq_refl).
Defined.

Lemma splitAtEquals_dash s :
  JsString.startsWith (fst (splitAtEquals (String "-" s))) "-" = true.
Proof.
  unfold splitAtEquals. cbn [JsString.indexOf].
  replace (Ascii.eqb "-" "=") with false by reflexivity.
  destruct (JsString.indexOf s "="); reflexivity.
Qed.

(** X9: three or more leading dashes, and an [=] right behind the dashes,
    are a syntax error in every registry: the tokens [---s], [-=s] and
    [--=s] make the loop of [parse] throw the invalid-syntax error, which
    carries the raw token. *)
Theorem malformed_token_throws fs s rest arg :
  In arg ["---" ++ s; "-=" ++ s; "--=" ++ s] ->
  parseLoop (withProcessingArgs fs (arg :: rest))
  = (withProcessingArgs fs rest,
     Throw (ParseError (new_FlagParseError "Invalid flag identifier syntax"
                                           (Some arg) None))).
Proof.
  intros Harg.
  rewrite parseLoop_step. cbn [_processingArgs withProcessingArgs].
  rewrite _parseOne_head.
  assert (Hhead : parseHead fs arg
                  = HThrow (ParseError
                              (new_FlagParseError "Invalid flag identifier syntax"
                                                  (Some arg) None))).
  { assert (Hgen : isFlagToken arg = true ->
                    validIdentifier (fst (splitToken arg)) = false ->
                    parseHead fs arg
                    = HThrow (ParseError
                                (new_FlagParseError "Invalid flag identifier syntax"
                                                    (Some arg) None))).
    { unfold isFlagToken, validIdentifier, parseHead. intros Htok Hid.
      apply andb_prop in Htok as [Htok Hlone].
      apply andb_prop in Htok as [Hterm Hdash].
      apply negb_true_iff in Hterm, Hlone.
      rewrite Hterm, Hdash, Hlone. cbn [negb orb].
      destruct (splitToken arg) as [ident inline]. cbn [fst] in Hid.
      destruct (String.length ident =? 0)%nat; [reflexivity|].
      destruct (JsString.startsWith ident "-"); [reflexivity|discriminate]. }
    destruct Harg as [<-|[<-|[<-|[]]]]; apply Hgen; try reflexivity.
    unfold validIdentifier.
    change (splitToken ("---" ++ s)) with (splitAtEquals (String "-" s)).
    rewrite splitAtEquals_dash. apply andb_false_r. }
  rewrite Hhead. reflexivity.
Qed.

(** [---verbose] in the registry of the test suite. *)
Lemma malformed_token_throws_witness :
  parseLoop (withProcessingArgs testFlagSet ["---verbose"])
  = (withProcessingArgs testFlagSet [],
     Throw (ParseError (mkFlagParseError
                          "Flag '---verbose': Invalid flag identifier syntax"
                          (Some "---verbose") None))).
Proof.
  exact (malformed_token_throws testFlagSet "verbose" [] "---verbose"
           (or_introl eq_refl)).
Defined.

Lemma splitAtEquals_head c s :
  Ascii.eqb c "=" = false ->
  exists ident inline, splitAtEquals (String c s) = (String c ident, inline).
Proof.
  intros Hc. unfold splitAtEquals. cbn [JsString.indexOf]. rewrite Hc.
  destruct (JsString.indexOf s "="); cbn [JsString.substringTo]; eauto.
Qed.

(** X10: one leading dash or two make no difference.  Two token sequences
    that differ only in writing some tokens [-s] in one and [--s] in the
    other, [s] not empty and starting neither with [-] nor with [=], make
    [parse] return the same completion and leave the same registry,
    whatever the registry. *)
Theorem single_and_double_dash_parse_alike fs argv1 argv2 :
  Forall2 dashForm argv1 argv2 ->
  parse fs (Some argv1) = parse fs (Some argv2).
Proof.
  intros Hargv.
  assert (Hhead : forall s0 t1 t2, dashForm t1 t2 ->
                                   parseHead s0 t1 = parseHead s0 t2).
  { intros s0 t1 t2 [t|s Ht Hd He]; [reflexivity|].
    destruct s as [|c s]; [discriminate|].
    rewrite startsWith_dash in Hd.
    assert (Hc : Ascii.eqb c "=" = false).
    { cbn [JsString.startsWith] in He. rewrite andb_true_r, Ascii.eqb_sym in He.
      exact He. }
    destruct (splitAtEquals_head c s Hc) as (ident & inline & Hsplit).
    assert (Hvalid : validIdentifier (String c ident) = true).
    { unfold validIdentifier. rewrite startsWith_dash, Hd. reflexivity. }
    assert (Hhelp : isHelp (String c ident) = false
                    \/ isHelp (String c ident) = true).
    { destruct (isHelp (String c ident)); auto. }
    assert (H1 : isFlagToken ("-" ++ String c s) = true).
    { unfold isFlagToken. cbn [append].
      rewrite (eqb_dash_dash _ _ Hd), eqb_lone_dash, startsWith_dash. reflexivity. }
    assert (H2 : isFlagToken ("--" ++ String c s) = true).
    { unfold isFlagToken. cbn [append].
      rewrite eqb_lone_dash, startsWith_dash.
      cbn [String.eqb]. rewrite !Ascii.eqb_refl. reflexivity. }
    assert (S1 : splitToken ("-" ++ String c s) = (String c ident, inline)).
    { unfold splitToken. cbn [append]. rewrite startsWith_dash_dash, Hd.
      exact Hsplit. }
    assert (S2 : splitToken ("--" ++ String c s) = (String c ident, inline)).
    { exact Hsplit. }
    destruct Hhelp as [Hhelp|Hhelp].
    - rewrite (parseHead_flag_token s0 _ _ _ H1 S1 Hvalid Hhelp),
              (parseHead_flag_token s0 _ _ _ H2 S2 Hvalid Hhelp).
      reflexivity.
    - unfold isFlagToken in H1, H2.
      apply andb_prop in H1 as [H1 L1]. apply andb_prop in H1 as [T1 D1].
      apply andb_prop in H2 as [H2 L2]. apply andb_prop in H2 as [T2 D2].
      apply negb_true_iff in T1, L1, T2, L2.
      unfold validIdentifier in Hvalid.
      apply andb_prop in Hvalid as [Hlen Hlead].
      apply negb_true_iff in Hlen, Hlead.
      unfold isHelp in Hhelp. unfold parseHead.
      rewrite T1, D1, L1, T2, D2, L2, S1, S2. cbn [negb orb].
      rewrite Hlen, Hlead, Hhelp. reflexivity. }
  apply (parse_simulation (Forall2 dashForm) (fun _ => True)); trivial.
  - intros q1 q2 [|t1 t2 q1' q2' Ht _]; [exact I|].
    cbv beta iota delta [alike].
    destruct Ht; [left; reflexivity|right; split; reflexivity].
  - intros s0 a1 a2 q1 q2 _ HR. inversion HR; subst. apply Hhead. assumption.
  - intros a1 a2 q1 q2 HR _. inversion HR; subst. assumption.
Qed.

(** The test "should parse short options using full name". *)
Lemma single_and_double_dash_parse_alike_witness :
  parse testFlagSet (Some ["-verbose"; "-config"; "full.json"])
  = parse testFlagSet (Some ["--verbose"; "--config"; "full.json"]).
Proof.
  apply single_and_double_dash_parse_alike.
  repeat constructor; apply (dash_single_double _ eq_refl eq_refl eq_refl).
Defined.

(** Induction over the iterations of the loop of [parse]. *)
Lemma parseLoop_rect (P : FlagSet -> FlagSet * completion unit -> Prop) :
  (forall fs, _processingArgs fs = [] -> P fs (fs, Normal tt)) ->
  (forall fs fs' e, _processingArgs fs <> [] ->
                    _parseOne fs = (fs', Throw e) -> P fs (fs', Throw e)) ->
  (forall fs fs' o, _processingArgs fs <> [] ->
                    _parseOne fs = (fs', Normal o) ->
                    o <> FLAG_CONSUMED_AND_PROCESSED ->
                    P fs (withProcessingArgs fs' [], Normal tt)) ->
  (forall fs fs' r, _processingArgs fs <> [] ->
                    _parseOne fs = (fs', Normal FLAG_CONSUMED_AND_PROCESSED) ->
                    P fs' r -> P fs r) ->
  forall fs, P fs (parseLoop fs).
Proof.
  intros Hnil Hthrow Hstop Hnext.
  assert (H : forall n fs, length (_processingArgs fs) <= n -> P fs (parseLoop fs)).
  { induction n as [|n IH]; intros fs Hlen; rewrite parseLoop_step.
    - destruct (_processingArgs fs) eqn:Hq; [apply Hnil, Hq|cbn in Hlen; lia].
    - destruct (_processingArgs fs) as [|arg rest] eqn:Hq; [apply Hnil, Hq|].
      assert (Hne : _processingArgs fs <> []) by congruence.
      destruct (_parseOne fs) as [fs' [o|e]] eqn:Hstep;
        [|apply Hthrow; assumption].
      destruct o;
        [|apply (Hstop fs fs' TERMINATOR_CONSUMED); trivial; discriminate
         |apply (Hstop fs fs' NOT_A_FLAG_ENCOUNTERED); trivial; discriminate].
      apply (Hnext fs fs'); trivial. apply IH.
      pose proof (_parseOne_consumes _ _ Hstep) as Hlt.
      rewrite Hq in Hlt. cbn in Hlt, Hlen. lia. }
  intros fs. apply (H (length (_processingArgs fs))). apply le_n.
Qed.

(** What a step of the parser throws. *)
Lemma _parseOne_throws fs fs' e :
  _processingArgs fs <> [] ->
  _parseOne fs = (fs', Throw e) ->
  e = HelpRequestError
  \/ exists pe n, e = ParseError pe /\ flagName pe = Some n.
Proof.
  intros Hq. unfold _parseOne.
  destruct (_processingArgs fs) as [|arg rest]; [congruence|].
  destruct (String.eqb arg "--"); [discriminate|].
  destruct (negb (JsString.startsWith arg "-") || String.eqb arg "-");
    [discriminate|].
  destruct (splitToken arg) as [ident inline].
  destruct ((String.length ident =? 0)%nat || JsString.startsWith ident "-");
    [intros H; inversion H; right; do 2 eexists; split; reflexivity|].
  destruct (String.eqb ident "h" || String.eqb ident "help");
    [intros H; inversion H; left; reflexivity|].
  destruct (resolve _ ident) as [flag|];
    [|intros H; inversion H; right; do 2 eexists; split; reflexivity].
  destruct (acquireAndApply flag inline rest) as [queue [flag'|e']];
    [discriminate|].
  intros H; inversion H. right.
  destruct e'; cbn [rethrow]; do 2 eexists; split; reflexivity.
Qed.

(** X11: on a registry that was not parsed before, [parse] throws nothing
    but the help signal and parse errors that carry a flag name: the raw
    token for a syntax error, the identifier for an unknown flag, the
    flag's name for every error about its value.  It never throws a
    definition error or an error of the host. *)
Theorem parse_throws_help_or_named_error fs argv fs' e :
  _isParsed fs = false ->
  parse fs argv = (fs', Throw e) ->
  e = HelpRequestError
  \/ exists pe n, e = ParseError pe /\ flagName pe = Some n.
Proof.
  intros Hp. unfold parse. rewrite Hp.
  generalize (withProcessingArgs fs (orDefault argv (argProvider fs))).
  intros fs1 H.
  assert (Hloop : forall s e0, snd (parseLoop s) = Throw e0 ->
                    e0 = HelpRequestError
                    \/ exists pe n, e0 = ParseError pe /\ flagName pe = Some n).
  { intros s. apply (parseLoop_rect
                       (fun s r => forall e0, snd r = Throw e0 ->
                          e0 = HelpRequestError
                          \/ exists pe n, e0 = ParseError pe
                                          /\ flagName pe = Some n));
      cbn [snd]; try discriminate; auto.
    intros s0 s' e0 Hq Hstep e1 [= <-].
    exact (_parseOne_throws _ _ _ Hq Hstep). }
  destruct (parseLoop fs1) as [fs2 [[]|e0]] eqn:E; [discriminate|].
  injection H as _ <-. apply (Hloop fs1). rewrite E. reflexivity.
Qed.

(** [--port not-a-number] in the registry of the test suite. *)
Lemma parse_throws_help_or_named_error_witness :
  exists pe n,
    snd (parse testFlagSet (Some ["--port"; "not-a-number"])) = Throw (ParseError pe)
    /\ flagName pe = Some n.
Proof.
  destruct (parse_throws_help_or_named_error testFlagSet
              (Some ["--port"; "not-a-number"]) _ _ eq_refl eq_refl)
    as [H|(pe & n & H & Hn)]; [discriminate H|].
  exists pe, n. split; [|exact Hn].
  rewrite <- H. reflexivity.
Defined.

(** ** What parsing keeps *)

Lemma sameFlag_trans f0 f1 f2 : sameFlag f0 f1 -> sameFlag f1 f2 -> sameFlag f0 f2.
Proof.
  unfold sameFlag. intros (A1 & A2 & A3 & A4 & A5) (B1 & B2 & B3 & B4 & B5).
  repeat split; try congruence.
  destruct (valueHolder f0), (valueHolder f1), (valueHolder f2);
    try contradiction; congruence.
Qed.

Lemma sameRegistry_refl fs : sameRegistry fs fs.
Proof.
  repeat split. induction (flags fs) as [|kf m IH]; constructor; [|exact IH].
  split; [reflexivity|apply sameFlag_refl].
Qed.

Lemma sameRegistry_trans fs0 fs1 fs2 :
  sameRegistry fs0 fs1 -> sameRegistry fs1 fs2 -> sameRegistry fs0 fs2.
Proof.
  intros (A1 & A2 & A3 & A4) (B1 & B2 & B3 & B4).
  repeat split; try congruence.
  revert B4. generalize (flags fs2). clear -A4.
  induction A4 as [|kf0 kf1 m0 m1 [Hk Hf] _ IH]; intros m2 B4;
    inversion B4 as [|kf1' kf2 m1' m2' [Hk' Hf'] Hrest]; subst; constructor.
  - split; [congruence|exact (sameFlag_trans _ _ _ Hf Hf')].
  - apply IH. exact Hrest.
Qed.

Lemma set_sameFlag (m : list (string * Flag)) k f f' :
  JsMap.get m k = Some f -> sameFlag f f' ->
  Forall2 (fun kf kf' => fst kf' = fst kf /\ sameFlag (snd kf) (snd kf'))
          m (JsMap.set m k f').
Proof.
  intros Hget Hsame.
  assert (Hrefl : forall l : list (string * Flag),
             Forall2 (fun kf kf' => fst kf' = fst kf /\ sameFlag (snd kf) (snd kf'))
                     l l).
  { induction l; constructor; [split; [reflexivity|apply sameFlag_refl]|assumption]. }
  induction m as [|[k0 f0] m IH]; cbn in *; [discriminate|].
  destruct (String.eqb k0 k) eqn:E.
  - apply String.eqb_eq in E. injection Hget as ->.
    constructor; [split; [symmetry; exact E|exact Hsame]|apply Hrefl].
  - constructor; [split; [reflexivity|apply sameFlag_refl]|apply IH, Hget].
Qed.

Lemma acquireAndApply_sameFlag flag inline queue queue' flag' :
  acquireAndApply flag inline queue = (queue', Normal flag') ->
  sameFlag flag flag' /\ _isSet flag' = true.
Proof.
  assert (Hset : forall v, FlagOps._setValueFromString flag v = Normal flag' ->
                           sameFlag flag flag' /\ _isSet flag' = true).
  { intros v H. split.
    - apply reached_sameFlag. exact (reached_set _ _ _ _ (reached_start _) H).
    - unfold FlagOps._setValueFromString in H.
      destruct (Value.set _ v); [injection H as <-; reflexivity|discriminate]. }
  unfold acquireAndApply.
  destruct (FlagOps.expectsExplicitValue flag), inline as [v|];
    try (intros [= _ H]; exact (Hset _ H)).
  - destruct queue as [|next rest]; [discriminate|].
    destruct (JsString.startsWith next "-"); [discriminate|].
    intros [= _ H]. exact (Hset _ H).
  - intros [= _ H]. split.
    + apply reached_sameFlag. exact (reached_implicit _ _ _ (reached_start _) H).
    + unfold FlagOps._setImplicitly in H.
      destruct (String.eqb _ _); [|discriminate].
      destruct (Value.set _ _); [injection H as <-; reflexivity|discriminate].
Qed.

(** One step of the parser: either the registry is as it was but for the
    queue, or one flag, the one the token resolves to, has been assigned. *)
Lemma acquireAndApply_consumes flag inline queue queue' r :
  acquireAndApply flag inline queue = (queue', r) ->
  queue' = queue \/ exists v, queue = v :: queue'.
Proof.
  unfold acquireAndApply.
  destruct (FlagOps.expectsExplicitValue flag), inline as [v|];
    try (intros [= <- _]; left; reflexivity).
  destruct queue as [|next rest]; [intros [= <- _]; left; reflexivity|].
  destruct (JsString.startsWith next "-"); intros [= <- _];
    [left; reflexivity|right; eexists; reflexivity].
Qed.

Lemma _parseOne_effect fs fs' c :
  _parseOne fs = (fs', c) ->
  (c <> Normal FLAG_CONSUMED_AND_PROCESSED
   /\ exists queue, fs' = withProcessingArgs fs queue)
  \/ (exists arg rest flag flag' queue,
        _processingArgs fs = arg :: rest
        /\ c = Normal FLAG_CONSUMED_AND_PROCESSED
        /\ resolve fs (fst (splitToken arg)) = Some flag
        /\ sameFlag flag flag' /\ _isSet flag' = true
        /\ (queue = rest \/ exists v, rest = v :: queue)
        /\ fs' = assigned fs (fst (splitToken arg)) flag' queue).
Proof.
  unfold _parseOne.
  destruct (_processingArgs fs) as [|arg rest] eqn:Hq.
  { intros [= <- <-]. left. split; [discriminate|].
    exists []. destruct fs; cbn in *. subst. reflexivity. }
  destruct (String.eqb arg "--");
    [intros [= <- <-]; left; split; [discriminate|eexists; reflexivity]|].
  destruct (negb (JsString.startsWith arg "-") || String.eqb arg "-").
  { intros [= <- <-]. left. split; [discriminate|]. exists (arg :: rest).
    destruct fs; cbn in *. subst. reflexivity. }
  destruct (splitToken arg) as [ident inline] eqn:Hsplit.
  destruct ((String.length ident =? 0)%nat || JsString.startsWith ident "-");
    [intros [= <- <-]; left; split; [discriminate|eexists; reflexivity]|].
  destruct (String.eqb ident "h" || String.eqb ident "help");
    [intros [= <- <-]; left; split; [discriminate|eexists; reflexivity]|].
  change (resolve (withProcessingArgs fs rest) ident) with (resolve fs ident).
  destruct (resolve fs ident) as [flag|] eqn:Hres;
    [|intros [= <- <-]; left; split; [discriminate|eexists; reflexivity]].
  destruct (acquireAndApply flag inline rest) as [queue [flag'|e]] eqn:Hacq.
  - intros [= <- <-]. right.
    destruct (acquireAndApply_sameFlag _ _ _ _ _ Hacq) as [Hsame Hset].
    exists arg, rest, flag, flag', queue. rewrite Hsplit. cbn [fst].
    split; [reflexivity|]. split; [reflexivity|]. split; [exact Hres|].
    split; [exact Hsame|]. split; [exact Hset|].
    split; [exact (acquireAndApply_consumes _ _ _ _ _ Hacq)|reflexivity].
  - intros [= <- <-]. left. split; [discriminate|eexists; reflexivity].
Qed.

Lemma _parseOne_sameRegistry fs fs' c :
  _parseOne fs = (fs', c) -> sameRegistry fs fs'.
Proof.
  intros H.
  destruct (_parseOne_effect _ _ _ H)
    as [(_ & queue & ->)
       |(arg & rest & flag & flag' & queue & _ & _ & Hres & Hsame & _ & _ & ->)].
  - exact (sameRegistry_refl fs).
  - repeat split. cbn [flags assigned withProcessingArgs withFlags].
    apply (set_sameFlag _ _ flag); assumption.
Qed.

Lemma parseLoop_sameRegistry fs : sameRegistry fs (fst (parseLoop fs)).
Proof.
  apply (parseLoop_rect (fun s r => sameRegistry s (fst r))); cbn [fst].
  - intros s _. apply sameRegistry_refl.
  - intros s s' e _ H. exact (_parseOne_sameRegistry _ _ _ H).
  - intros s s' o _ H _.
    apply (sameRegistry_trans _ s'); [exact (_parseOne_sameRegistry _ _ _ H)|].
    exact (sameRegistry_refl s').
  - intros s s' r _ H IH.
    exact (sameRegistry_trans _ _ _ (_parseOne_sameRegistry _ _ _ H) IH).
Qed.

Lemma resetAll_sameFlag m :
  Forall2 (fun kf kf' => fst kf' = fst kf /\ sameFlag (snd kf) (snd kf'))
          m (fst (resetAll m)).
Proof.
  induction m as [|[k f] m IH]; cbn; [constructor|].
  destruct (FlagOps._resetToDefault f) as [f'|e] eqn:E.
  - destruct (resetAll m) as [m' r]. cbn in *.
    constructor; [|exact IH]. split; [reflexivity|].
    apply reached_sameFlag. exact (reached_reset _ _ _ (reached_start _) E).
  - cbn. constructor; [split; [reflexivity|apply sameFlag_refl]|].
    clear. induction m; constructor;
      [split; [reflexivity|apply sameFlag_refl]|assumption].
Qed.

Lemma reset_sameRegistry fs : sameRegistry fs (fst (reset fs)).
Proof.
  unfold reset. pose proof (resetAll_sameFlag (flags fs)) as H.
  destruct (resetAll (flags fs)) as [m [[]|e]]; repeat split; exact H.
Qed.

(** X12: [parse] never adds, removes, renames, reorders or retypes a
    flag.  Whatever the tokens and however the call ends, the registry it
    leaves has the same aliases, program name and argument provider, and
    the same flags under the same names in the same order, each with the
    name, description, alias and default string it was built with and a
    value of the same type. *)
Theorem parse_keeps_registry_shape (fs : FlagSet) (argv : option (list string)) :
  sameRegistry fs (fst (parse fs argv)).
Proof.
  unfold parse.
  assert (Hloop : forall fs0,
             sameRegistry fs fs0 ->
             sameRegistry fs
               (fst (match parseLoop
                             (withProcessingArgs fs0 (orDefault argv (argProvider fs0)))
                     with
                     | (fs2, Throw e) =>
                         (withProcessingArgs (withIsParsed fs2 true) [], @Throw unit e)
                     | (fs2, Normal _) =>
                         (withProcessingArgs (withIsParsed fs2 true) [], Normal tt)
                     end))).
  { intros fs0 H0.
    pose proof (parseLoop_sameRegistry
                  (withProcessingArgs fs0 (orDefault argv (argProvider fs0)))) as H.
    destruct (parseLoop _) as [fs2 [[]|e]]; cbn [fst] in *;
      exact (sameRegistry_trans _ _ _ H0 H). }
  destruct (_isParsed fs); [|apply Hloop, sameRegistry_refl].
  pose proof (reset_sameRegistry fs) as Hr.
  destruct (reset fs) as [fs0 [[]|e]]; cbn [fst] in Hr; [|exact Hr].
  apply Hloop. exact Hr.
Qed.

(** X13: a flag token that is processed assigns exactly one flag.  The
    flag its identifier resolves to is marked as set and keeps its name,
    alias, default and type; every flag registered under another name is
    as it was; and the queue has lost that token and at most the one
    behind it. *)
Theorem processed_token_assigns_one_flag fs fs' :
  _parseOne fs = (fs', Normal FLAG_CONSUMED_AND_PROCESSED) ->
  exists arg rest flag flag',
    _processingArgs fs = arg :: rest
    /\ resolve fs (fst (splitToken arg)) = Some flag
    /\ resolve fs' (fst (splitToken arg)) = Some flag'
    /\ _isSet flag' = true
    /\ sameFlag flag flag'
    /\ (forall k, k <> resolvedFlagName fs (fst (splitToken arg)) ->
                   JsMap.get (flags fs') k = JsMap.get (flags fs) k)
    /\ (_processingArgs fs' = rest \/ exists v, rest = v :: _processingArgs fs').
Proof.
  intros H.
  destruct (_parseOne_effect _ _ _ H)
    as [[Hc _]|(arg & rest & flag & flag' & queue & Hq & _ & Hres & Hsame & Hset
                & Hqueue & ->)]; [congruence|].
  exists arg, rest, flag, flag'.
  split; [exact Hq|]. split; [exact Hres|].
  split; [unfold resolve, assigned; cbn; apply JsMap_get_set_same|].
  split; [exact Hset|]. split; [exact Hsame|]. split; [|exact Hqueue].
  intros k Hk. unfold assigned. cbn. rewrite JsMap_get_set.
  destruct (String.eqb _ k) eqn:E; [|reflexivity].
  apply String.eqb_eq in E. congruence.
Qed.

(** [-c user.json] in the registry of the test suite. *)
Lemma processed_token_assigns_one_flag_witness :
  exists flag',
    resolve (fst (_parseOne (withProcessingArgs testFlagSet ["-c"; "user.json"]))) "c"
    = Some flag'
    /\ _isSet flag' = true.
Proof.
  destruct (processed_token_assigns_one_flag
              (withProcessingArgs testFlagSet ["-c"; "user.json"]) _ eq_refl)
    as (arg & rest & flag & flag' & Hq & _ & Hres & Hset & _).
  injection Hq as <- _. exists flag'. split; [exact Hres|exact Hset].
Defined.

(** ** Reset *)

(** For the three scalar values the outcome of [set] does not depend on
    the current value. *)
Lemma set_twice v stringValue v' :
  match v with
  | StringListValue _ _ => False
  | _ => True
  end ->
  Value.set v stringValue = Normal v' -> Value.set v' stringValue = Normal v'.
Proof.
  destruct v; cbn; intros Hk; try contradiction.
  - set (lower := JsString.toLowerCase stringValue).
    destruct (String.eqb lower "true" || String.eqb lower "1") eqn:E1;
      [intros [= <-]; cbn; fold lower; rewrite E1; reflexivity|].
    destruct (String.eqb lower "false" || String.eqb lower "0") eqn:E2;
      [|discriminate].
    intros [= <-]. cbn. fold lower. rewrite E1, E2. reflexivity.
  - intros [= <-]. reflexivity.
  - destruct (isNaN _) eqn:E1; [discriminate|].
    intros [= <-]. cbn. rewrite E1. reflexivity.
Qed.

Lemma clearAndReset_twice v stringValue v' :
  Value._clearAndReset v stringValue = Normal v' ->
  Value._clearAndReset v' stringValue = Normal v'.
Proof.
  assert (Hscalar : forall v0,
             match v0 with
             | StringListValue _ _ => False
             | _ => True
             end ->
             (if JsString.truthy stringValue
              then Value.set v0 stringValue else Normal v0) = Normal v' ->
             Value._clearAndReset v' stringValue = Normal v').
  { intros v0 Hk0. unfold Value._clearAndReset.
    destruct (JsString.truthy stringValue).
    - intros H. pose proof (set_keeps_kind _ _ _ H) as Hk.
      pose proof (set_twice _ _ _ Hk0 H) as H'.
      destruct v0, v'; try contradiction; exact H'.
    - intros [= <-]. destruct v0; try contradiction; reflexivity. }
  destruct v as [b|s|x|cur init].
  - exact (Hscalar (BooleanValue b) I).
  - exact (Hscalar (StringValue s) I).
  - exact (Hscalar (NumberValue x) I).
  - intros [= <-]. reflexivity.
Qed.

Lemma resetToDefault_twice f f' :
  FlagOps._resetToDefault f = Normal f' ->
  FlagOps._resetToDefault f' = Normal f' /\ _isSet f' = false.
Proof.
  unfold FlagOps._resetToDefault.
  destruct (Value._clearAndReset (valueHolder f) (initialDefaultValueString f))
    as [v|e] eqn:E; [|discriminate].
  intros [= <-]. cbn [valueHolder initialDefaultValueString withValue _isSet].
  rewrite (clearAndReset_twice _ _ _ E). split; reflexivity.
Qed.

Lemma resetAll_twice m m' :
  resetAll m = (m', Normal tt) ->
  resetAll m' = (m', Normal tt)
  /\ Forall (fun kf => _isSet (snd kf) = false) m'.
Proof.
  revert m'. induction m as [|[k f] m IH]; cbn; intros m'.
  - intros [= <-]. split; [reflexivity|constructor].
  - destruct (FlagOps._resetToDefault f) as [f'|e] eqn:E; [|discriminate].
    destruct (resetAll m) as [m1 r] eqn:Em. intros [= <- ->].
    destruct (IH m1 eq_refl) as [H1 H2].
    destruct (resetToDefault_twice _ _ E) as [H3 H4].
    cbn. rewrite H3, H1. split; [reflexivity|].
    constructor; [exact H4|exact H2].
Qed.

(** X14: a [reset] that returns normally leaves a registry on which
    [reset] changes nothing more: resetting twice is resetting once.  In
    that registry no flag is marked as set, [isParsed] is false and the
    queue is empty. *)
Theorem reset_idempotent fs fs1 :
  reset fs = (fs1, Normal tt) ->
  reset fs1 = (fs1, Normal tt)
  /\ Forall (fun kf => _isSet (snd kf) = false) (flags fs1)
  /\ _isParsed fs1 = false
  /\ _processingArgs fs1 = [].
Proof.
  unfold reset.
  destruct (resetAll (flags fs)) as [m [[]|e]] eqn:E; [|discriminate].
  intros [= <-]. cbn [flags withFlags withIsParsed withProcessingArgs].
  destruct (resetAll_twice _ _ E) as [H1 H2].
  rewrite H1. repeat split. exact H2.
Qed.

(** The registry of the test suite after [--verbose --config prod.json]. *)
Lemma reset_idempotent_witness :
  let fs := fst (parse testFlagSet (Some ["--verbose"; "--config"; "prod.json"])) in
  reset (fst (reset fs)) = (fst (reset fs), Normal tt).
Proof.
  exact (proj1 (reset_idempotent
                  (fst (parse testFlagSet
                          (Some ["--verbose"; "--config"; "prod.json"])))
                  _ eq_refl)).
Defined.

(** ** Number literals and value errors *)

Lemma longestPrefix_whole P s :
  P s = true -> JsNumber.longestPrefix P s = Some s.
Proof.
  revert P. induction s as [|c s IH]; intros P H; cbn.
  - rewrite H. reflexivity.
  - rewrite (IH (fun p => P (String c p)) H). reflexivity.
Qed.

(** A decimal literal does not start with white space. *)
Lemma strDecimalLiteral_trimStart s x :
  JsNumber.strDecimalLiteral s = Some x -> JsString.trimStart s = s.
Proof.
  destruct s as [|c t]; [reflexivity|].
  cbn [JsString.trimStart].
  destruct (JsString.isWhiteSpace c) eqn:Ew; [|reflexivity].
  intros H. exfalso. revert H.
  destruct c as [[] [] [] [] [] [] [] []]; try discriminate Ew; clear Ew;
    unfold JsNumber.strDecimalLiteral, JsNumber.strUnsignedDecimalLiteral;
    cbn; discriminate.
Qed.

(** X15: the number value's [set] accepts every decimal literal
    (optional sign, then [Infinity], or digits with an optional fraction
    and exponent) and stores the value of the whole literal, which
    [JsNumber.strDecimalLiteral] gives rounded to binary64; that value is
    a binary64 value. *)
Theorem number_set_accepts_literal (current x : number) (stringValue : string) :
  JsNumber.strDecimalLiteral stringValue = Some x ->
  JsNumber.parseFloat stringValue = x
  /\ Value.set (NumberValue current) stringValue = Normal (NumberValue x)
  /\ JsNumber.isBinary64 x.
Proof.
  intros H.
  assert (Hp : JsNumber.parseFloat stringValue = x).
  { unfold JsNumber.parseFloat.
    rewrite (strDecimalLiteral_trimStart _ _ H), longestPrefix_whole.
    - rewrite H. reflexivity.
    - unfold JsNumber.isStrDecimalLiteral. rewrite H. reflexivity. }
  split; [exact Hp|]. split.
  - cbn [Value.set]. rewrite Hp, (strDecimalLiteral_not_NaN _ _ H). reflexivity.
  - exact (strDecimalLiteral_isBinary64 _ _ H).
Qed.

(** [123.45], the literal of the test suite: the stored value is the
    binary64 value next to it. *)
Lemma number_set_accepts_literal_witness :
  Value.set (NumberValue (Decimal false 0 0)) "123.45"
  = Normal (NumberValue
              (Decimal false 1234500000000000028421709430404007434844970703125 (-46))).
Proof.
  exact (proj1 (proj2 (number_set_accepts_literal (Decimal false 0 0)
                  (Decimal false 1234500000000000028421709430404007434844970703125 (-46))
                  "123.45" eq_refl))).
Defined.

Lemma set_throws v stringValue e :
  Value.set v stringValue = Throw e ->
  exists pe, e = ParseError pe /\ flagName pe = None
             /\ offendingValue pe = Some stringValue.
Proof.
  destruct v; cbn.
  - set (lower := JsString.toLowerCase stringValue).
    destruct (String.eqb lower "true" || String.eqb lower "1"); [discriminate|].
    destruct (String.eqb lower "false" || String.eqb lower "0"); [discriminate|].
    intros [= <-]. eexists. repeat split.
  - discriminate.
  - destruct (isNaN _); [|discriminate].
    intros [= <-]. eexists. repeat split.
  - discriminate.
Qed.

(** X16: every error raised while a resolved flag gets its value is
    thrown again as a parse error under the flag's name.  Either it is the
    missing-value error, it carries no value, and the queue is empty or led
    by a token that starts with [-]; or it carries exactly the string that
    the flag's value rejected, which is the inline value, or else the next
    token, which has left the queue. *)
Theorem value_error_names_flag_and_value flag inline queue queue' e :
  acquireAndApply flag inline queue = (queue', Throw e) ->
  exists pe,
    rethrow flag inline e = ParseError pe
    /\ flagName pe = Some (name flag)
    /\ ((offendingValue pe = None /\ inline = None /\ queue' = queue
         /\ (queue = []
             \/ exists next rest,
                 queue = next :: rest /\ JsString.startsWith next "-" = true))
        \/ (exists v e0,
              offendingValue pe = Some v
              /\ Value.set (valueHolder flag) v = Throw e0
              /\ ((inline = Some v /\ queue' = queue)
                  \/ (inline = None /\ queue = v :: queue')))).
Proof.
  assert (Hset : forall v (P : Prop),
             P ->
             FlagOps._setValueFromString flag v = Throw e ->
             exists pe,
               rethrow flag inline e = ParseError pe
               /\ flagName pe = Some (name flag)
               /\ exists v0 e0,
                    offendingValue pe = Some v0
                    /\ Value.set (valueHolder flag) v0 = Throw e0
                    /\ v0 = v /\ P).
  { intros v P HP H. unfold FlagOps._setValueFromString in H.
    destruct (Value.set (valueHolder flag) v) as [h|e1] eqn:E; [discriminate|].
    injection H as <-.
    destruct (set_throws _ _ _ E) as (pe & -> & Hn & Hv).
    eexists. split; [reflexivity|]. split; [reflexivity|].
    exists v, (ParseError pe). cbn. rewrite Hv. auto. }
  unfold acquireAndApply.
  destruct (FlagOps.expectsExplicitValue flag) eqn:Hexp.
  - destruct inline as [v|].
    + intros [= <- H].
      destruct (Hset v True I H) as (pe & H1 & H2 & v0 & e0 & H3 & H4 & -> & _).
      exists pe. split; [exact H1|]. split; [exact H2|].
      right. exists v, e0. auto.
    + destruct queue as [|next rest].
      * intros [= <- <-]. eexists. split; [reflexivity|]. split; [reflexivity|].
        left. auto.
      * destruct (JsString.startsWith next "-") eqn:Ed.
        -- intros [= <- <-]. eexists. split; [reflexivity|]. split; [reflexivity|].
           left. repeat split. right. exists next, rest. auto.
        -- intros [= <- H].
           destruct (Hset next True I H)
             as (pe & H1 & H2 & v0 & e0 & H3 & H4 & -> & _).
           exists pe. split; [exact H1|]. split; [exact H2|].
           right. exists next, e0. auto.
  - destruct inline as [v|].
    + intros [= <- H].
      destruct (Hset v True I H) as (pe & H1 & H2 & v0 & e0 & H3 & H4 & -> & _).
      exists pe. split; [exact H1|]. split; [exact H2|].
      right. exists v, e0. auto.
    + intros [= _ H]. exfalso.
      destruct (expectsExplicitValue_false _ Hexp) as [b Hb].
      unfold FlagOps._setImplicitly in H. rewrite Hb in H. discriminate H.
Qed.

(** [--verbose=maybe], a value the boolean rejects. *)
Lemma value_error_names_flag_and_value_witness :
  exists pe,
    snd (parse testFlagSet (Some ["--verbose=maybe"])) = Throw (ParseError pe)
    /\ flagName pe = Some "verbose".
Proof.
  destruct (value_error_names_flag_and_value
              (mkFlag "verbose" "Verbose output" (Some "v") (BooleanValue false)
                      "false" false)
              (Some "maybe") [] [] _ eq_refl) as (pe & H1 & H2 & _).
  exists pe. split; [rewrite <- H1; reflexivity|exact H2].
Defined.

(** ** Help text *)

Lemma append_assoc_local s1 s2 s3 : (s1 ++ s2) ++ s3 = s1 ++ s2 ++ s3.
Proof.
  induction s1 as [|c s1 IH]; cbn; [reflexivity|]. rewrite IH. reflexivity.
Qed.

Lemma spaces_length n : String.length (Help.spaces n) = n.
Proof.
  induction n as [|n IH]; cbn; [reflexivity|]. rewrite IH. reflexivity.
Qed.

Lemma append_length s1 s2 :
  String.length (s1 ++ s2) = String.length s1 + String.length s2.
Proof.
  induction s1 as [|c s1 IH]; cbn; [reflexivity|]. rewrite IH. reflexivity.
Qed.

Lemma fold_max_ge (l : list string) m :
  m <= fold_left (fun m syntax => Nat.max m (String.length syntax)) l m
  /\ forall s, In s l ->
                String.length s
                <= fold_left (fun m syntax => Nat.max m (String.length syntax)) l m.
Proof.
  revert m. induction l as [|x l IH]; intros m; cbn.
  - split; [lia|intros s []].
  - destruct (IH (Nat.max m (String.length x))) as [H1 H2].
    split; [lia|]. intros s [<-|Hs]; [lia|apply H2, Hs].
Qed.

(** X17: the option lines of the help text are aligned.  When the longest
    syntax string has at most 41 characters, every line is the flag's
    syntax string, then spaces up to column [longest + 4] (so four spaces
    at least), then the description and the default, if any: all
    descriptions start in the same column. *)
Theorem option_lines_aligned (sortedFlags : list Flag) :
  let width :=
    Help.maxSyntaxWidth (map Help._formatFlagSyntaxForHelp sortedFlags) + 4 in
  width <= 45 ->
  Forall2
    (fun flag line =>
       exists pad tail,
         line = (Help._formatFlagSyntaxForHelp flag ++ Help.spaces pad) ++ tail
         /\ String.length (Help._formatFlagSyntaxForHelp flag) + pad = width
         /\ 4 <= pad
         /\ tail = description flag
                   ++ match Help._formatDefaultValueForHelp flag with
                      | Some d => " (default: " ++ d ++ ")"
                      | None => ""
                      end)
    sortedFlags (Help.optionDetailLines sortedFlags).
Proof.
  intros width Hw. unfold Help.optionDetailLines.
  fold width. rewrite (Nat.min_l _ _ Hw).
  assert (Hall : forall flag, In flag sortedFlags ->
                   String.length (Help._formatFlagSyntaxForHelp flag) + 4 <= width).
  { intros flag Hin. unfold width, Help.maxSyntaxWidth.
    pose proof (proj2 (fold_max_ge (map Help._formatFlagSyntaxForHelp sortedFlags) 0)
                      _ (in_map Help._formatFlagSyntaxForHelp _ _ Hin)).
    lia. }
  clearbody width. clear Hw.
  induction sortedFlags as [|flag l IH]; cbn [map]; constructor.
  - specialize (Hall flag (or_introl eq_refl)).
    exists (width - String.length (Help._formatFlagSyntaxForHelp flag)).
    eexists. split; [|split; [lia|split; [lia|reflexivity]]].
    unfold Help.optionDetailLine, Help.padEnd.
    destruct (Help._formatDefaultValueForHelp flag).
    + rewrite <- !append_assoc_local. reflexivity.
    + rewrite append_nil_r. reflexivity.
  - apply IH. intros f Hf. apply Hall. right. exact Hf.
Qed.

(** The three flags of the help test of the test suite, sorted by name:
    the longest syntax string has 26 characters, the descriptions start in
    column 30. *)
Lemma option_lines_aligned_witness :
  Forall2
    (fun flag line =>
       exists pad tail,
         line = (Help._formatFlagSyntaxForHelp flag ++ Help.spaces pad) ++ tail
         /\ String.length (Help._formatFlagSyntaxForHelp flag) + pad = 30
         /\ 4 <= pad
         /\ tail = description flag
                   ++ match Help._formatDefaultValueForHelp flag with
                      | Some d => " (default: " ++ d ++ ")"
                      | None => ""
                      end)
    helpTestFlags (Help.optionDetailLines helpTestFlags).
Proof.
  exact (option_lines_aligned helpTestFlags ltac:(vm_compute; lia)).
Defined.

Example option_lines_of_the_help_test :
  Help.optionDetailLines helpTestFlags
  = ["  --file <string>             Input file. (default: input.txt)";
     "  --retries <number>          Number of retries. (default: 0)";
     "  -v, --verbose [=boolean]    Enable verbose output."].
Proof.
  reflexivity.
Qed.
